(** * Ad-free proxy: the [/fetch] handler of [server.js]

    A shallow embedding of the request handler of [src/server.js] and the
    properties of its content cleaning pipeline.

    Conventions of the embedding.

    - Markup is modelled by the tree it denotes: an HTML string (the fetched
      page, [innerHTML], the argument and the result of [sanitizeHtml]) is a
      forest of nodes.  Each element carries the identity of the DOM node it
      was serialised from, so that an element of the response can be traced
      back to the element of the fetched document.
    - Identity 0 is the identity of markup that was not serialised from a
      node of the document: the elements the handler writes in its template
      strings, and whatever a parser makes of plain text.
    - The collaborators that are not part of the repository (node-fetch,
      Readability, the WHATWG URL parser, the HTML parser applied to
      strings the handler puts together, the constants, the value filters
      and the parser of sanitize-html) are the fields of a [World]; the
      handler is a function of the world and the request.
    - Of the collaborators, [fetch] may reject, the body of a response may
      fail to be read, and Readability may throw; the others are total
      functions.
    - sanitize-html reads the markup it is given with a parser of its own,
      and the string of line 72 is read with the title written into it:
      what these readings make of the markup are fields of the world too.
    - Strings are the bytes of well-formed Unicode strings.  A string with
      a lone surrogate, on which [encodeURI] throws, is not a string of the
      model.
    - The [target] of the request body is a string or is missing, as in the
      data model of the handler; JSON values of other types are not part of
      the model.
    - Attributes are a finite map from attribute names to values.
    - Comment nodes and doctypes are left out of the node type. *)

From Stdlib Require Import Ascii String.
From stdpp Require Import gmap strings list fin_maps.

Local Open Scope string_scope.
Local Open Scope list_scope.

(** ** Regular expressions of the handler

    The handler uses six regular expressions, all with the [i] flag and
    without the [g] flag (so [test] is stateless).  They are sequences of
    literal characters and optional literal characters, one of them anchored
    at the start of the input. *)
Module Regex.

Inductive atom :=
| Chr (c : ascii)    (* a literal character *)
| Opt (c : ascii).   (* [c?] *)

Record regexp := RegExp { anchored : bool; atoms : list atom }.

(** Case folding of the [i] flag on the ASCII range.  A character outside
    ASCII never folds to an ASCII letter under the [i] flag without the
    [u] flag. *)
Definition lower (c : ascii) : ascii :=
  let n := nat_of_ascii c in
  if ((65 <=? n) && (n <=? 90))%nat then ascii_of_nat (n + 32) else c.

Definition ci_eqb (c x : ascii) : bool := Ascii.eqb (lower c) (lower x).

Fixpoint match_here (p : list atom) (s : string) {struct p} : bool :=
  match p with
  | [] => true
  | Chr c :: p' =>
      match s with
      | String x s' => ci_eqb c x && match_here p' s'
      | EmptyString => false
      end
  | Opt c :: p' =>
      match s with
      | String x s' => ci_eqb c x && match_here p' s'
      | EmptyString => false
      end || match_here p' s
  end.

Fixpoint search (p : list atom) (s : string) : bool :=
  match_here p s ||
  match s with
  | String _ s' => search p s'
  | EmptyString => false
  end.

(** [r.test(s)] *)
Definition test (r : regexp) (s : string) : bool :=
  if anchored r then match_here (atoms r) s else search (atoms r) s.

Fixpoint lits (w : string) : list atom :=
  match w with
  | EmptyString => []
  | String c w' => Chr c :: lits w'
  end.

(** [/w/i] for a literal word [w] *)
Definition word (w : string) : regexp := RegExp false (lits w).

Fixpoint lower_string (s : string) : string :=
  match s with
  | EmptyString => EmptyString
  | String c s' => String (lower c) (lower_string s')
  end.

(** The words of the specification: [s] contains [w] as a substring, up
    to the case of ASCII letters. *)
Definition contains_ci (w s : string) : Prop :=
  exists pre post, lower_string s = pre +:+ lower_string w +:+ post.

End Regex.

(** ** JavaScript values the handler inspects *)

(** Truthiness of a string: every string but the empty one. *)
Definition truthy (s : string) : bool :=
  match s with
  | EmptyString => false
  | String _ _ => true
  end.

(** ** The document object model *)

Inductive namespace := HTML | SVG | MathML.

#[global] Instance namespace_eq_dec : EqDecision namespace.
Proof. solve_decision. Defined.

Abbreviation attributes := (gmap string string).

#[local] Unset Elimination Schemes.
Inductive node :=
| Element (uid : nat) (ns : namespace) (localName : string)
          (attrs : attributes) (childNodes : list node)
| Text (data : string).
#[local] Set Elimination Schemes.

(** Induction on a node with the induction hypothesis for every child. *)
Fixpoint node_forall_ind (P : node -> Prop)
    (HE : forall u k t a cs, Forall P cs -> P (Element u k t a cs))
    (HT : forall s, P (Text s)) (n : node) {struct n} : P n :=
  match n with
  | Element u k t a cs =>
      HE u k t a cs
        ((fix all (l : list node) : Forall P l :=
            match l with
            | [] => List.Forall_nil P
            | c :: l' => @List.Forall_cons _ P c l' (node_forall_ind P HE HT c) (all l')
            end) cs)
  | Text s => HT s
  end.

(** Markup: the forest a string of HTML denotes. *)
Definition html := list node.

Record document := Document { documentURI : string; docNodes : list node }.

(** [el.className]: a string on HTML (and MathML) elements, an
    [SVGAnimatedString] object on SVG elements. *)
Inductive class_name :=
| ClassString (s : string)
| ClassAnimated (baseVal : string).

Module Dom.

Definition uid_of (n : node) : nat :=
  match n with
  | Element u _ _ _ _ => u
  | Text _ => 0
  end.

Definition tag_of (n : node) : string :=
  match n with
  | Element _ _ t _ _ => t
  | Text _ => ""
  end.

Definition attrs_of (n : node) : attributes :=
  match n with
  | Element _ _ _ a _ => a
  | Text _ => ∅
  end.

Definition ns_of (n : node) : namespace :=
  match n with
  | Element _ k _ _ _ => k
  | Text _ => HTML
  end.

Definition children_of (n : node) : list node :=
  match n with
  | Element _ _ _ _ cs => cs
  | Text _ => []
  end.

(** [el.getAttribute(name)]; [None] is [null]. *)
Definition getAttribute (name : string) (n : node) : option string :=
  attrs_of n !! name.

(** A reflected string attribute: the attribute's value, or the empty
    string when the attribute is absent. *)
Definition reflect (name : string) (n : node) : string :=
  default "" (getAttribute name n).

(** [el.id] *)
Definition id (n : node) : string := reflect "id" n.

(** [el.className] *)
Definition className (n : node) : class_name :=
  match ns_of n with
  | SVG => ClassAnimated (reflect "class" n)
  | _ => ClassString (reflect "class" n)
  end.

(** The element and its descendant elements, in document order. *)
Fixpoint subtree (n : node) : list node :=
  match n with
  | Element _ _ _ _ cs => n :: flat_map subtree cs
  | Text _ => []
  end.

(** All elements of a forest in document order. *)
Definition elements (f : list node) : list node := flat_map subtree f.

Definition uids (f : list node) : list nat := map uid_of (elements f).

(** The selectors the handler passes to [querySelectorAll]. *)
Inductive selector :=
| Universal                                              (* [*] *)
| TypeSel (name : string)                                (* [name] *)
| TypeAttrs (name : string) (eqs : list (string * string)).
                                         (* [name[a="v"]...] *)

(** The attributes whose values a selector compares without regard to the
    case of ASCII letters in an HTML document (the list of the HTML
    standard, which the selector engine of jsdom follows); the values of
    all other attributes are compared as they are. *)
Definition case_insensitive_values : list string :=
  [ "accept"; "accept-charset"; "align"; "alink"; "axis"; "bgcolor";
    "charset"; "checked"; "clear"; "codetype"; "color"; "compact";
    "declare"; "defer"; "dir"; "direction"; "disabled"; "enctype"; "face";
    "frame"; "hreflang"; "http-equiv"; "lang"; "language"; "link"; "media";
    "method"; "multiple"; "nohref"; "noresize"; "noshade"; "nowrap";
    "readonly"; "rel"; "rev"; "rules"; "scope"; "scrolling"; "selected";
    "shape"; "target"; "text"; "type"; "valign"; "valuetype"; "vlink" ].

(** [[a="v"]] on the value of the attribute [a]; a missing attribute does
    not match. *)
Definition value_matches (a v : string) (value : option string) : bool :=
  match value with
  | Some x =>
      if bool_decide (a ∈ case_insensitive_values)
      then bool_decide (Regex.lower_string x = Regex.lower_string v)
      else bool_decide (x = v)
  | None => false
  end.

Definition matches (sel : selector) (n : node) : bool :=
  match sel with
  | Universal => true
  | TypeSel t => bool_decide (tag_of n = t)
  | TypeAttrs t eqs =>
      bool_decide (tag_of n = t) &&
      forallb (fun '(a, v) => value_matches a v (getAttribute a n)) eqs
  end.

(** [root.querySelectorAll(sel)]: a static list of the matching elements
    in document order. *)
Definition querySelectorAll (sel : selector) (f : list node) : list node :=
  filter (fun n => matches sel n = true) (elements f).

(** [n.remove()] for the node with identity [u]: the node is detached from
    its parent, and with it its whole subtree.  On a node that is no longer
    in the document the document is left as it is. *)
Fixpoint detach (u : nat) (n : node) : list node :=
  match n with
  | Element v k t a cs =>
      if bool_decide (v = u) then []
      else [Element v k t a (flat_map (detach u) cs)]
  | Text _ => [n]
  end.

Definition remove (u : nat) (f : list node) : list node :=
  flat_map (detach u) f.

(** An in-place update of the attributes of the node with identity [u]. *)
Fixpoint update (u : nat) (g : attributes -> attributes) (n : node) : node :=
  match n with
  | Element v k t a cs =>
      Element v k t (if bool_decide (v = u) then g a else a)
        (map (update u g) cs)
  | Text _ => n
  end.

Definition updateAttributes (u : nat) (g : attributes -> attributes)
    (f : list node) : list node :=
  map (update u g) f.

Definition is_element (n : node) : bool :=
  match n with
  | Element _ _ _ _ _ => true
  | Text _ => false
  end.

Definition first_child (p : node -> bool) (cs : list node) : option node :=
  head (filter (fun n => p n = true) cs).

(** [doc.documentElement]: the first element child of the document. *)
Definition documentElement (f : list node) : option node :=
  first_child is_element f.

Definition is_html (t : string) (n : node) : bool :=
  is_element n && bool_decide (ns_of n = HTML) && bool_decide (tag_of n = t).

(** [doc.body]: the first [body] or [frameset] child of the [html]
    element; [None] is [null]. *)
Definition body (f : list node) : option node :=
  match documentElement f with
  | Some root =>
      if is_html "html" root
      then first_child (fun n => is_html "body" n || is_html "frameset" n)
             (children_of root)
      else None
  | None => None
  end.

(** [el.innerHTML], as the forest it denotes. *)
Definition innerHTML (n : node) : html := children_of n.

End Dom.

(** ** sanitize-html

    The allow-list filter.  What the handler does not set itself is a field
    of [library]: the default tag and attribute lists, the tags whose
    content is dropped together with the tag, what the library does to the
    value of an attribute it allows by name, and the parser with which it
    reads the markup it is given. *)
Module Sanitize.

Record library := Library {
  defaults_allowedTags : list string;
  defaults_allowedAttributes : gmap string (list string);
  nonTextTags : list string;
  (** The value the library writes out for the attribute [name] with the
      given value on the given tag: the value itself, a rewritten value
      (the library parses a [style] attribute and prints it again), or
      [None] when it drops the attribute (a URL whose scheme is not
      allowed). *)
  filter_value : string -> string -> string -> option string;
  (** The library reads its argument with a parser of its own, which is
      not the parser of the document: the tree that parser makes of the
      markup. *)
  parse : html -> html
}.

Record options := Options {
  allowedTags : list string;
  allowedAttributes : gmap string (list string)
}.

Definition listed (o : options) (key name : string) : bool :=
  bool_decide (name ∈ default [] (allowedAttributes o !! key)).

(** An attribute name is allowed on a tag when the list of the tag or the
    list of ["*"] has it. *)
Definition attribute_allowed (o : options) (tag name : string) : bool :=
  listed o tag name || listed o "*" name.

Section Filter.
Variable L : library.
Variable o : options.

(** What becomes of one attribute of an element with the given tag. *)
Definition sanitize_attribute (tag name value : string) : option string :=
  if attribute_allowed o tag name then filter_value L tag name value
  else None.

Definition sanitize_attributes (tag : string) (a : attributes) : attributes :=
  map_imap (sanitize_attribute tag) a.

(** A tag outside the allow-list is discarded and its children are kept
    in its place, unless it is one of [nonTextTags], whose content goes
    with it. *)
Fixpoint sanitize_node (n : node) : list node :=
  match n with
  | Element u k t a cs =>
      if bool_decide (t ∈ allowedTags o)
      then [Element u k t (sanitize_attributes t a)
              (flat_map sanitize_node cs)]
      else if bool_decide (t ∈ nonTextTags L) then []
      else flat_map sanitize_node cs
  | Text _ => [n]
  end.

Definition sanitizeHtml (h : html) : html :=
  flat_map sanitize_node (parse L h).
End Filter.

Definition defaults (L : library) : options :=
  Options (defaults_allowedTags L) (defaults_allowedAttributes L).

End Sanitize.

(** ** The world outside the handler *)

(** The request node-fetch is asked to make. *)
Record outbound := Outbound {
  out_url : string;
  out_user_agent : string;
  out_timeout_ms : N
}.

(** The promise [fetch] returns either rejects (network error, timeout) or
    resolves to a response with a status; the body of the response is read
    afterwards by [resp.text()], whose promise resolves to the markup or
    rejects (the connection breaks, the timeout passes). *)
Inductive fetch_result :=
| FetchRejected
| FetchResponse (status : nat) (text : html)
| FetchUnreadable (status : nat).

(** The status of the response, when the promise of [fetch] resolves. *)
Definition status_received (r : fetch_result) : option nat :=
  match r with
  | FetchRejected => None
  | FetchResponse s _ => Some s
  | FetchUnreadable s => Some s
  end.

(** What [new Readability(doc).parse()] does: it throws, returns [null], or
    returns an article whose [title] and [content] may be missing. *)
Inductive parse_result :=
| ParseThrows
| ParseNull
| ParseArticle (title : option string) (content : option html).

Record World := {
  (** node-fetch *)
  fetch : outbound -> fetch_result;
  (** Readability works on the document it is given and changes it; the
      first component is the document it leaves behind. *)
  Readability_parse : document -> document * parse_result;
  (** [new url.URL(resourceUrl, base).toString()]; [None] when the
      constructor throws. *)
  URL : string -> string -> option string;
  (** The markup a plain string denotes when it is read as HTML. *)
  htmlparser : string -> html;
  (** The markup that the string [`<h1>${title}</h1>\n${content}`]
      denotes.  The title is written into the string as it is, not
      escaped, and the string is read as a whole: markup in the title
      becomes part of the tree, and can take in what follows it. *)
  heading_template : string -> html -> html;
  sanitize_html : Sanitize.library
}.

(** ** The handler *)

(** The JSON body of the request: [target] is a string or missing. *)
Record Request := { target : option string }.

Inductive Response :=
| Json (status : nat) (error : string)
| Page (contentType : string) (body : html).

Definition status_of (r : Response) : nat :=
  match r with
  | Json s _ => s
  | Page _ _ => 200
  end.

(** A step of the handler completes normally, returns a response early, or
    throws; the state is the list of outbound requests made so far. *)
Inductive completion (A : Type) :=
| Normal (a : A)
| Return (r : Response)
| Throw.
Arguments Normal {A} a.
Arguments Return {A} r.
Arguments Throw {A}.

Definition Handler (A : Type) : Type :=
  list outbound -> list outbound * completion A.

#[global] Instance handler_ret : MRet Handler :=
  fun A a tr => (tr, Normal a).

#[global] Instance handler_bind : MBind Handler :=
  fun A B k m tr =>
    match m tr with
    | (tr', Normal a) => k a tr'
    | (tr', Return r) => (tr', Return r)
    | (tr', Throw) => (tr', Throw)
    end.

(** [return res.status(s).json(...)] and [res.send(...)] *)
Definition respond {A} (r : Response) : Handler A := fun tr => (tr, Return r).

(** [await fetch(url, options)]: the status of the response and the
    outcome of reading its body, should the handler read it. *)
Definition await_fetch (w : World) (rq : outbound)
    : Handler (nat * option html) :=
  fun tr =>
    (tr ++ [rq],
     match fetch w rq with
     | FetchRejected => Throw
     | FetchResponse s b => Normal (s, Some b)
     | FetchUnreadable s => Normal (s, None)
     end).

(** [await resp.text()] *)
Definition await_text (text : option html) : Handler html :=
  fun tr =>
    (tr,
     match text with
     | Some b => Normal b
     | None => Throw
     end).

(** [try { ... } catch (err) { res.status(500).json(...) }] *)
Definition try_catch (m : Handler Response) (handler : Response)
    : list outbound * Response :=
  match m [] with
  | (tr, Normal r) => (tr, r)
  | (tr, Return r) => (tr, r)
  | (tr, Throw) => (tr, handler)
  end.

Module Server.
Import Regex Dom.

(** [/^https?:\/\//i] *)
Definition url_pattern : regexp :=
  RegExp true
    [Chr "h"; Chr "t"; Chr "t"; Chr "p"; Opt "s"; Chr ":"; Chr "/"; Chr "/"].

(** [[/advert/i, /ads?/i, /banner/i, /sponsored/i, /promoted/i]] *)
Definition adPatterns : list regexp :=
  [ word "advert";
    RegExp false [Chr "a"; Chr "d"; Opt "s"];
    word "banner";
    word "sponsored";
    word "promoted" ].

Definition structural_selectors : list selector :=
  [ TypeSel "script"; TypeSel "iframe"; TypeSel "ins"; TypeSel "amp-ad";
    TypeSel "amp-analytics";
    TypeAttrs "link" [("rel", "preload"); ("as", "script")] ].

(** [toAbsolute(resourceUrl, base)] *)
Definition toAbsolute (w : World) (resourceUrl base : string) : string :=
  match URL w resourceUrl base with
  | Some u => u
  | None => resourceUrl
  end.

(** [nodes.forEach(n => n.remove())] over a static node list *)
Definition remove_each (nodes : list node) (f : list node) : list node :=
  fold_left (fun f n => remove (uid_of n) f) nodes f.

(** Lines 49-54: for each selector in turn, the matching elements of the
    document as it then stands are removed. *)
Definition structural_sweep (f : list node) : list node :=
  fold_left (fun f sel => remove_each (querySelectorAll sel f) f)
    structural_selectors f.

(** [s || ''] *)
Definition or_empty (s : string) : string := if truthy s then s else "".

(** [(el.className && typeof el.className === 'string') ? el.className : ''] *)
Definition cls_of (el : node) : string :=
  match className el with
  | ClassString s => if truthy s then s else ""
  | ClassAnimated _ => ""
  end.

(** The [for (const p of adPatterns)] loop: the pattern at which the loop
    removes the element and breaks, if any. *)
Fixpoint first_match (ps : list regexp) (id cls : string) : option regexp :=
  match ps with
  | [] => None
  | p :: ps' =>
      if test p id || test p cls then Some p else first_match ps' id cls
  end.

(** The decision the sweep takes for one element. *)
Definition looks_like_ad (el : node) : bool :=
  match first_match adPatterns (or_empty (Dom.id el)) (cls_of el) with
  | Some _ => true
  | None => false
  end.

(** Lines 58-64.  The callback reads [id] and [className] of the element
    it is handed; no attribute changes during the sweep, so the values
    are those of the static list. *)
Definition heuristic_sweep (f : list node) : list node :=
  fold_left (fun f el => if looks_like_ad el then remove (uid_of el) f else f)
    (querySelectorAll Universal f) f.

(** A new element written in a template string. *)
Definition el (t : string) (a : list (string * string)) (cs : list node)
    : node :=
  Element 0 HTML t (list_to_map a) cs.

Definition newline : string := String (ascii_of_nat 10) "".

(** Lines 67-76: [contentHtml] after the [try] block; [None] is [null].
    [article.content] is truthy when it is a string that is not empty,
    that is, when the markup is not empty. *)
Definition article_html (w : World) (r : parse_result) : option html :=
  match r with
  | ParseArticle title (Some content) =>
      match content with
      | [] => None
      | _ :: _ =>
          Some (heading_template w (or_empty (default "" title)) content)
      end
  | ParseArticle _ None => None
  | ParseNull => None
  | ParseThrows => None
  end.

(** Lines 81-86, the callback on one anchor. *)
Definition rewrite_anchor (w : World) (base : string) (a : attributes)
    : attributes :=
  let a1 :=
    match a !! "href" with
    | Some href =>
        if truthy href then <["href" := toAbsolute w href base]> a else a
    | None => a
    end in
  <["target" := "_blank"]> (<["rel" := "noopener noreferrer"]> a1).

(** Lines 87-90, the callback on one image. *)
Definition rewrite_img (w : World) (base : string) (a : attributes)
    : attributes :=
  match a !! "src" with
  | Some s => if truthy s then <["src" := toAbsolute w s base]> a else a
  | None => a
  end.

Definition update_each (g : attributes -> attributes) (nodes : list node)
    (f : list node) : list node :=
  fold_left (fun f n => updateAttributes (uid_of n) g f) nodes f.

(** Lines 81-90 *)
Definition absolutize (w : World) (base : string) (f : list node)
    : list node :=
  let f1 :=
    update_each (rewrite_anchor w base) (querySelectorAll (TypeSel "a") f) f in
  update_each (rewrite_img w base) (querySelectorAll (TypeSel "img") f1) f1.

(** Line 91: [doc.body ? doc.body.innerHTML : html] *)
Definition body_or_raw (f : list node) (raw : html) : html :=
  match body f with
  | Some b => innerHTML b
  | None => raw
  end.

(** The content chosen for the response, with the path that chose it. *)
Inductive ExtractedContent :=
| FromArticle (h : html)
| FromFallback (h : html).

Definition content_html (c : ExtractedContent) : html :=
  match c with
  | FromArticle h => h
  | FromFallback h => h
  end.

(** Lines 44-64: the document after the two sweeps. *)
Definition cleaned (raw : html) : list node :=
  heuristic_sweep (structural_sweep raw).

(** Lines 67-92 on the cleaned document [f]. *)
Definition select_content (w : World) (base : string) (raw : html)
    (f : list node) : ExtractedContent :=
  let '(doc, r) := Readability_parse w (Document base f) in
  match article_html w r with
  | Some h => FromArticle h
  | None =>
      FromFallback (body_or_raw (absolutize w base (docNodes doc)) raw)
  end.

(** The options of the call at lines 95-104. *)
Definition sanitize_options (w : World) : Sanitize.options :=
  Sanitize.Options
    (Sanitize.defaults_allowedTags (sanitize_html w) ++
       ["img"; "h1"; "h2"; "h3"; "table"; "thead"; "tbody"; "tr"; "th"; "td"])
    (list_to_map
       [ ("a", ["href"; "name"; "target"; "rel"]);
         ("img", ["src"; "alt"; "title"; "width"; "height"]);
         ("*", ["class"; "id"; "style"]) ]).

(** [clean] *)
Definition clean (w : World) (content : html) : html :=
  Sanitize.sanitizeHtml (sanitize_html w) (sanitize_options w) content.

(** [sanitizeHtml(target)], with the options of the library. *)
Definition sanitized_target (w : World) (t : string) : html :=
  Sanitize.sanitizeHtml (sanitize_html w)
    (Sanitize.defaults (sanitize_html w)) (htmlparser w t).

(** ** [encodeURI] on the bytes of a well-formed string

    Every byte that is not one of the unescaped characters is written as
    a percent escape.  (The built-in throws on a lone surrogate, which no
    well-formed string has.) *)
Definition uri_unescaped : string :=
  "ABCDEFGHIJKLMNOPQRSTUVWXYZabcdefghijklmnopqrstuvwxyz0123456789;/?:@&=+$,-_.!~*'()#".

Fixpoint mem_char (c : ascii) (s : string) : bool :=
  match s with
  | EmptyString => false
  | String x s' => Ascii.eqb c x || mem_char c s'
  end.

Definition hex_digit (n : nat) : ascii :=
  match String.get n "0123456789ABCDEF" with
  | Some c => c
  | None => "0"%char
  end.

Fixpoint encodeURI (s : string) : string :=
  match s with
  | EmptyString => EmptyString
  | String c s' =>
      if mem_char c uri_unescaped then String c (encodeURI s')
      else
        let n := nat_of_ascii c in
        String "%" (String (hex_digit (n / 16))
          (String (hex_digit (n mod 16)) (encodeURI s')))
  end.

(** ** The page wrapper (lines 107-138)

    The template as the tree it denotes, without the doctype and the
    white space between tags. *)
Definition em_dash : string :=
  String (ascii_of_nat 226)
    (String (ascii_of_nat 128) (String (ascii_of_nat 148) "")).

Definition stylesheet : string :=
  "body{font-family:Inter,Arial,sans-serif;line-height:1.6;padding:22px;max-width:900px;margin:auto;background:#fbfbfd;color:#111}" +:+
  "header{display:flex;justify-content:space-between;align-items:center;margin-bottom:18px}" +:+
  "a.btn{background:#1f6feb;color:#fff;padding:8px 12px;border-radius:8px;text-decoration:none}" +:+
  "img{max-width:100%;height:auto}".

Definition wrapper (w : World) (t : string) (clean : html) : html :=
  [ el "html" []
      [ el "head" []
          [ el "meta" [("charset", "utf-8")] [];
            el "meta" [("name", "viewport");
                       ("content", "width=device-width,initial-scale=1")] [];
            el "title" []
              (Text ("Ad-free view " +:+ em_dash +:+ " ")
                 :: sanitized_target w t);
            el "style" [] [Text stylesheet] ];
        el "body" []
          [ el "header" []
              [ el "div" []
                  [ el "div" [("style", "font-size:13px;color:#666")]
                      [Text "Ad-free view"];
                    el "div" [("style", "font-weight:700")]
                      (sanitized_target w t) ];
                el "div" []
                  [ el "a" [("class", "btn"); ("href", encodeURI t);
                            ("target", "_blank");
                            ("rel", "noopener noreferrer")]
                      [Text "Open original"] ] ];
            el "main" [] clean;
            el "footer" [("style", "margin-top:40px;color:#666;font-size:13px")]
              [ el "div" [] [Text "Served by AdFree Proxy"];
                el "div" [("style", "margin-top:8px")]
                  [Text "Note: dynamic sites or paywalled content may not render correctly."] ] ] ] ].

Definition user_agent : string := "AdFreeProxy/1.0 (+https://example.com)".

(** [resp.ok] *)
Definition ok (status : nat) : bool :=
  ((200 <=? status) && (status <=? 299))%nat.

(** The body of the [try] block of [app.post('/fetch', ...)]. *)
Definition fetch_route (w : World) (req : Request) : Handler Response :=
  match target req with
  | None => respond (Json 400 "Invalid URL")
  | Some t =>
      if negb (truthy t) || negb (test url_pattern t)
      then respond (Json 400 "Invalid URL")
      else
        resp ← await_fetch w (Outbound t user_agent 15000%N);
        let '(status, text) := resp in
        if negb (ok status)
        then respond (Json 502 "Failed to fetch target")
        else
          raw ← await_text text;
          let content := select_content w t raw (cleaned raw) in
          respond
            (Page "text/html; charset=utf-8"
               (wrapper w t (clean w (content_html content))))
  end.

(** The handler: the outbound requests it made and the response it sent. *)
Definition handle (w : World) (req : Request) : list outbound * Response :=
  try_catch (fetch_route w req) (Json 500 "Server error").

End Server.

(** ** Functional descriptions

    What the sweeps and the rewriting of the fallback path compute, written
    as functions on the tree.  They are related to the loops of the handler
    in the properties below. *)
Module Spec.
Import Dom.

(** The node without the elements whose identity satisfies [q], and
    without what is below them. *)
Fixpoint prune (q : nat -> bool) (n : node) : list node :=
  match n with
  | Element v k t a cs =>
      if q v then [] else [Element v k t a (flat_map (prune q) cs)]
  | Text _ => [n]
  end.

Definition prune_forest (q : nat -> bool) (f : list node) : list node :=
  flat_map (prune q) f.

(** A change of the attributes of every element, chosen by identity and
    tag. *)
Fixpoint retag (g : nat -> string -> attributes -> attributes) (n : node)
    : node :=
  match n with
  | Element v k t a cs => Element v k t (g v t a) (map (retag g) cs)
  | Text _ => n
  end.

(** Identity, namespace, tag and attributes of a node: what is left of it
    when its children are put aside. *)
Definition shell (n : node) : nat * namespace * string * attributes :=
  (uid_of n, ns_of n, tag_of n, attrs_of n).

(** The substrings the specification lists for the heuristic sweep. *)
Definition ad_words : list string :=
  ["ad"; "ads"; "advert"; "banner"; "sponsored"; "promoted"].

(** Some word of the list occurs in [s], in any case. *)
Definition has_ad_word (s : string) : Prop :=
  exists w, w ∈ ad_words /\ Regex.contains_ci w s.



(** The characters a browser skips when it reads the scheme of a URL:
    the control characters and the space. *)
Fixpoint strip_controls (s : string) : string :=
  match s with
  | EmptyString => EmptyString
  | String c s' =>
      if (nat_of_ascii c <=? 32)%nat then strip_controls s'
      else String c (strip_controls s')
  end.

Definition script_schemes : list string := ["javascript:"; "vbscript:"].

(** A URL that runs script when it is followed or loaded. *)
Definition script_url (v : string) : bool :=
  existsb (fun sch => Regex.match_here (Regex.lits sch) (strip_controls v))
    script_schemes.




(** What the fallback path does to the attribute [name] ([href] of an
    anchor, [src] of an image): a value that is not empty is replaced by
    the URL it resolves to against the base, and kept when it does not
    resolve; an empty value and a missing attribute are left as they
    are. *)
Definition rewritten (w : World) (base name : string)
    (old new : attributes) : Prop :=
  match old !! name with
  | Some v =>
      if truthy v
      then match URL w v base with
           | Some u => new !! name = Some u
           | None => new !! name = Some v
           end
      else new !! name = Some v
  | None => new !! name = None
  end.

(** The tags of the structural sweep. *)
Definition swept_tags : list string :=
  ["script"; "iframe"; "ins"; "amp-ad"; "amp-analytics"].

(** The tags of the elements the page wrapper is made of. *)
Definition wrapper_tags : list string :=
  ["html"; "head"; "meta"; "title"; "style"; "body"; "header"; "div"; "a";
   "main"; "footer"].

(** The rewriting of the fallback path on the attributes of one element:
    anchors and images are rewritten, everything else is left alone. *)
Definition absolutized (w : World) (base : string) (t : string)
    (a : attributes) : attributes :=
  if bool_decide (t = "a") then Server.rewrite_anchor w base a
  else if bool_decide (t = "img") then Server.rewrite_img w base a
  else a.

(** What the two sweeps look for in an element: it matches one of the
    selectors of the structural sweep, or it looks like an ad. *)
Definition unwanted (n : node) : bool :=
  existsb (fun sel => matches sel n) Server.structural_selectors ||
  Server.looks_like_ad n.

(** [s] starts with [w], up to the case of ASCII letters. *)
Definition starts_with_ci (w s : string) : Prop :=
  exists rest, Regex.lower_string s = Regex.lower_string w +:+ rest.

(** The four words that decide the heuristic sweep. *)
Definition deciding_words : list string :=
  ["ad"; "banner"; "sponsored"; "promoted"].

Fixpoint all_chars (p : ascii -> bool) (s : string) : bool :=
  match s with
  | EmptyString => true
  | String c s' => p c && all_chars p s'
  end.

(** The characters [encodeURI] can produce: those it leaves alone, and the
    percent sign of an escape (the hexadecimal digits are among the
    former). *)
Definition uri_output (c : ascii) : bool :=
  Server.mem_char c Server.uri_unescaped || Ascii.eqb c "%".

(** A document as the HTML parser builds it: an [html] element with a
    [head] and a [body]. *)
Definition parsed_document (u uh ub : nat) (ah ahd ab : attributes)
    (hs bs : list node) : html :=
  [ Element u HTML "html" ah
      [ Element uh HTML "head" ahd hs; Element ub HTML "body" ab bs ] ].

End Spec.

(** ** Worlds and pages to run the handler on *)
Module Examples.
Import Dom Server.

(** An instance of the sanitizer, after the defaults that sanitize-html
    documents: the default tags and attributes and the tags whose content
    is dropped.  A link or a source with a script URL is dropped, every
    other value is written out as it is, and the parser reads the markup
    as the tree it denotes. *)
Definition library : Sanitize.library := {|
  Sanitize.defaults_allowedTags :=
    [ "address"; "article"; "aside"; "footer"; "header"; "h1"; "h2"; "h3";
      "h4"; "h5"; "h6"; "hgroup"; "main"; "nav"; "section"; "blockquote";
      "dd"; "div"; "dl"; "dt"; "figcaption"; "figure"; "hr"; "li"; "main";
      "ol"; "p"; "pre"; "ul"; "a"; "abbr"; "b"; "bdi"; "bdo"; "br"; "cite";
      "code"; "data"; "dfn"; "em"; "i"; "kbd"; "mark"; "q"; "rb"; "rp";
      "rt"; "rtc"; "ruby"; "s"; "samp"; "small"; "span"; "strong"; "sub";
      "sup"; "time"; "u"; "var"; "wbr"; "caption"; "col"; "colgroup";
      "table"; "tbody"; "td"; "tfoot"; "th"; "thead"; "tr" ];
  Sanitize.defaults_allowedAttributes :=
    list_to_map
      [ ("a", ["href"; "name"; "target"]);
        ("img", ["src"; "srcset"; "alt"; "title"; "width"; "height";
                 "loading"]) ];
  Sanitize.nonTextTags := ["script"; "style"; "textarea"; "option"];
  Sanitize.filter_value := fun _ name v =>
    if bool_decide (name ∈ ["href"; "src"]) && Spec.script_url v
    then None else Some v;
  Sanitize.parse := fun h => h
|}.

(** The text of [s] in front of the first [<script>], if there is one. *)
Fixpoint before_script (s : string) : option string :=
  if Regex.match_here (Regex.lits "<script>") s then Some ""
  else
    match s with
    | EmptyString => None
    | String c s' => String c <$> before_script s'
    end.

Definition text (s : string) : html := if truthy s then [Text s] else [].

(** A reading of the heading template.  A title without [<script>] is
    the text of the heading, and the content follows the heading.  From a
    [<script>] in the title on, the rest of the string is the text of a
    script element, to the end of the string when no [</script>] follows:
    the rest of the title, the end tag of the heading and the content.
    (That text is left out here; the sanitizer drops it with the
    element.) *)
Definition heading (title : string) (content : html) : html :=
  match before_script title with
  | Some pre =>
      [el "h1" [] (text pre ++ [Element 0 HTML "script" ∅ []])]
  | None => el "h1" [] (text title) :: Text newline :: content
  end.

(** URL resolution against a base of the form [http://host]: an http(s)
    URL resolves to itself (the unterminated IPv6 literal is the one
    string here that the parser rejects), anything else is taken as a
    path on the host. *)
Definition resolve (r base : string) : option string :=
  if Regex.test url_pattern r
  then if bool_decide (r = "http://[") then None else Some r
  else
    match r with
    | String "/" _ => Some (base +:+ r)
    | _ => Some (base +:+ "/" +:+ r)
    end.

(** An extraction that finds nothing and leaves the document alone. *)
Definition no_article (d : document) : document * parse_result :=
  (d, ParseNull).

(** An extraction that returns the content of the body under the given
    title, and nothing when the document has no body. *)
Definition titled (title : string) (d : document) : document * parse_result :=
  match body (docNodes d) with
  | Some b => (d, ParseArticle (Some title) (Some (innerHTML b)))
  | None => (d, ParseNull)
  end.

Definition body_article : document -> document * parse_result :=
  titled "Title".

Definition world (net : outbound -> fetch_result)
    (reader : document -> document * parse_result) : World := {|
  fetch := net;
  Readability_parse := reader;
  URL := resolve;
  htmlparser := text;
  heading_template := heading;
  sanitize_html := library
|}.

Definition site : string := "http://example.com".

Definition post (t : string) : Request := {| target := Some t |}.

(** A network on which every request fails. *)
Definition unreachable (_ : outbound) : fetch_result := FetchRejected.

(** A network on which every request is answered with the given status
    and page. *)
Definition serving (status : nat) (page : html) (_ : outbound)
    : fetch_result :=
  FetchResponse status page.

Definition html_page (body_attrs : attributes) (content : list node) : html :=
  [ Element 1 HTML "html" ∅
      [ Element 2 HTML "head" ∅ [];
        Element 3 HTML "body" body_attrs content ] ].

(** The page of the scenario of the specification. *)
Definition article_page : html :=
  html_page ∅
    [ Element 4 HTML "script" ∅ [Text "bad()"];
      Element 5 HTML "p" {[ "class" := "ad-banner" ]} [Text "X"];
      Element 6 HTML "p" ∅ [Text "Real text long enough to be an article body"] ].

(** The same page with a class on its body. *)
Definition loaded_page : html :=
  html_page {[ "class" := "loaded" ]}
    [ Element 4 HTML "script" ∅ [Text "bad()"];
      Element 5 HTML "p" {[ "class" := "ad-banner" ]} [Text "X"];
      Element 6 HTML "p" ∅ [Text "Real text long enough to be an article body"] ].

(** A page with an SVG element that carries an ad class. *)
Definition svg_page : html :=
  html_page ∅
    [ Element 4 SVG "svg" {[ "class" := "ad-banner" ]}
        [ Element 5 SVG "foreignObject" ∅
            [ Element 6 HTML "p" ∅ [Text "X"] ] ] ].

(** The world in which [page] is served with status 200 and the
    extraction returns the body. *)
Definition serve (page : html) : World := world (serving 200 page) body_article.


Definition svg_inner : node := Element 6 HTML "p" ∅ [Text "X"].

Definition svg_ad : node :=
  Element 4 SVG "svg" {[ "class" := "ad-banner" ]}
    [ Element 5 SVG "foreignObject" ∅ [svg_inner] ].

(** The world in which [page] is served with status 200 and the
    extraction finds nothing. *)
Definition quiet (page : html) : World := world (serving 200 page) no_article.

Definition link_next : node :=
  Element 4 HTML "a" {[ "href" := "/next" ]} [Text "next"].

Definition link_broken : node :=
  Element 5 HTML "a" {[ "href" := "http://[" ]} [Text "broken"].

Definition link_here : node :=
  Element 6 HTML "a" {[ "href" := "" ]} [Text "here"].

Definition picture : node :=
  Element 7 HTML "img" {[ "src" := "pic.png" ]} [].

Definition links_page : html :=
  html_page ∅ [link_next; link_broken; link_here; picture].


Definition page_of (r : list outbound * Response) : html :=
  match r.2 with
  | Page _ b => b
  | Json _ _ => []
  end.

Definition article_world : World :=
  world (serving 200 article_page) body_article.

Definition real_text : node :=
  Element 6 HTML "p" ∅ [Text "Real text long enough to be an article body"].




(** The text of the [title] element of a document. *)
Definition title_text (f : list node) : option string :=
  match filter (fun n => tag_of n = "title") (elements f) with
  | Element _ _ _ _ [Text s] :: _ => Some s
  | _ => None
  end.

(** An extraction that returns the content of the body under the title
    of the document. *)
Definition entitled (d : document) : document * parse_result :=
  match body (docNodes d) with
  | Some b => (d, ParseArticle (title_text (docNodes d)) (Some (innerHTML b)))
  | None => (d, ParseNull)
  end.

(** A page about the script tag: its source has
    [<title>&lt;script&gt; tag explained</title>]. *)
Definition explained_page : html :=
  [ Element 1 HTML "html" ∅
      [ Element 2 HTML "head" ∅
          [ Element 8 HTML "title" ∅ [Text "<script> tag explained"] ];
        Element 3 HTML "body" ∅ [real_text] ] ].

(** The world in which that page is served. *)
Definition titled_world : World :=
  world (serving 200 explained_page) entitled.

End Examples.

(** * Properties *)

(** ** Regular expressions *)
Section RegexFacts.
Import Regex.

Lemma ci_eqb_true c x : ci_eqb c x = true <-> lower c = lower x.
Proof. unfold ci_eqb. apply Ascii.eqb_eq. Qed.

Lemma lower_idem c : lower (lower c) = lower c.
Proof.
  destruct c as [[] [] [] [] [] [] [] []]; reflexivity.
Qed.

Lemma lower_string_idem s : lower_string (lower_string s) = lower_string s.
Proof. induction s as [|c s IH]; simpl; [done|]. by rewrite lower_idem, IH. Qed.

Lemma lower_string_app s t :
  lower_string (s +:+ t) = lower_string s +:+ lower_string t.
Proof. induction s as [|c s IH]; simpl; [done|]. by rewrite IH. Qed.

(** A literal pattern matches at the start of [s] exactly when [s] starts
    with the word, up to case. *)
Lemma match_here_lits w s :
  match_here (lits w) s = true <->
  exists post, lower_string s = lower_string w +:+ post.
Proof.
  revert s. induction w as [|c w IH]; intros s; simpl.
  - split; [intros _; by exists (lower_string s)|done].
  - destruct s as [|x s]; simpl.
    + split; [done|]. intros [post H]. discriminate.
    + rewrite andb_true_iff, ci_eqb_true, IH. split.
      * intros [Hc [post Hp]]. exists post. by rewrite Hc, Hp.
      * intros [post Hp]. injection Hp as Hc Hs. split; [done|by exists post].
Qed.

Lemma search_lits w s : search (lits w) s = true <-> contains_ci w s.
Proof.
  unfold contains_ci. induction s as [|x s IH].
  - simpl. rewrite orb_false_r, match_here_lits. split.
    + intros [post H]. by exists "", post.
    + intros [[|c pre] [post H]]; [by exists post|discriminate].
  - cbn [search]. rewrite orb_true_iff, match_here_lits, IH. split.
    + intros [[post H]|[pre [post H]]].
      * by exists "", post.
      * exists (String (lower x) pre), post. simpl. by rewrite H.
    + intros [[|c pre] [post H]].
      * left. by exists post.
      * right. simpl in H. injection H as _ H. by exists pre, post.
Qed.

Lemma test_word w s : test (word w) s = true <-> contains_ci w s.
Proof. apply search_lits. Qed.

(** [/ads?/i] matches exactly the strings that contain "ad". *)
Lemma match_here_ads s :
  match_here [Chr "a"; Chr "d"; Opt "s"] s = match_here (lits "ad") s.
Proof.
  destruct s as [|x [|y s]]; simpl; try reflexivity.
  by rewrite orb_true_r.
Qed.

Lemma test_ads s :
  test (RegExp false [Chr "a"; Chr "d"; Opt "s"]) s = true <->
  contains_ci "ad" s.
Proof.
  rewrite <- search_lits. unfold test; simpl anchored; simpl atoms.
  induction s as [|x s IH].
  - reflexivity.
  - cbn [search]. rewrite match_here_ads, !orb_true_iff, IH. reflexivity.
Qed.

Lemma append_assoc (a b c : string) : (a +:+ b) +:+ c = a +:+ (b +:+ c).
Proof.
  induction a as [|x a IH]; [done|].
  change (String x ((a +:+ b) +:+ c) = String x (a +:+ (b +:+ c))).
  by rewrite IH.
Qed.

Lemma contains_ci_prefix w v s :
  contains_ci (w +:+ v) s -> contains_ci w s.
Proof.
  intros [pre [post H]]. exists pre, (lower_string v +:+ post).
  by rewrite H, lower_string_app, append_assoc.
Qed.

Lemma contains_ci_empty w : w <> "" -> ~ contains_ci w "".
Proof.
  intros Hw [[|c pre] [post H]]; simpl in H; [|discriminate].
  destruct w; [done|discriminate].
Qed.

End RegexFacts.

(** ** Trees *)
Section TreeFacts.
Import Dom Spec.

Lemma elem_of_flat_map {A B} (f : A -> list B) (l : list A) (y : B) :
  y ∈ flat_map f l <-> exists x, x ∈ l /\ y ∈ f x.
Proof.
  split.
  - intros H. apply list_elem_of_In, in_flat_map in H.
    destruct H as [x [H1 H2]]. exists x. split; by apply list_elem_of_In.
  - intros [x [H1 H2]]. apply list_elem_of_In, in_flat_map.
    exists x. split; by apply list_elem_of_In.
Qed.

Lemma elements_app f g : elements (f ++ g) = elements f ++ elements g.
Proof. apply flat_map_app. Qed.

Lemma uids_app f g : uids (f ++ g) = uids f ++ uids g.
Proof. unfold uids. by rewrite elements_app, map_app. Qed.

Lemma uids_cons n f : uids (n :: f) = map uid_of (subtree n) ++ uids f.
Proof. unfold uids, elements. simpl. by rewrite map_app. Qed.

Lemma subtree_element c n : n ∈ subtree c -> is_element n = true.
Proof.
  revert n. induction c as [u k t a cs IH|s] using node_forall_ind; intros n; simpl.
  - rewrite elem_of_cons, elem_of_flat_map. intros [->|[c [Hc Hn]]]; [done|].
    rewrite Forall_forall in IH. eauto.
  - by rewrite elem_of_nil.
Qed.

Lemma subtree_self n : is_element n = true -> n ∈ subtree n.
Proof. destruct n; [intros _; simpl; apply elem_of_cons; by left|done]. Qed.

Lemma subtree_trans c n d : n ∈ subtree c -> d ∈ subtree n -> d ∈ subtree c.
Proof.
  revert n d. induction c as [u k t a cs IH|s] using node_forall_ind; intros n d; simpl.
  - rewrite !elem_of_cons, !elem_of_flat_map.
    intros [->|[c [Hc Hn]]] Hd.
    + simpl in Hd. by rewrite elem_of_cons, elem_of_flat_map in Hd.
    + right. exists c. split; [done|].
      rewrite Forall_forall in IH. eauto.
  - by rewrite elem_of_nil.
Qed.

Lemma subtree_elements f n d :
  n ∈ elements f -> d ∈ subtree n -> d ∈ elements f.
Proof.
  unfold elements. rewrite !elem_of_flat_map. intros [c [Hc Hn]] Hd.
  exists c. eauto using subtree_trans.
Qed.

Lemma elements_element f n : n ∈ elements f -> is_element n = true.
Proof.
  unfold elements. rewrite elem_of_flat_map. intros [c [_ Hn]].
  by apply (subtree_element c).
Qed.

Lemma elem_of_uids f n : n ∈ elements f -> uid_of n ∈ uids f.
Proof. intros H. unfold uids. by apply list_elem_of_fmap_2. Qed.


End TreeFacts.

(** ** Removing nodes *)
Section PruneFacts.
Import Dom Spec.

Lemma flat_map_ext_Forall {A B} (f g : A -> list B) (l : list A) :
  Forall (fun x => f x = g x) l -> flat_map f l = flat_map g l.
Proof. induction 1 as [|x l Hx _ IH]; simpl; [done|]. by rewrite Hx, IH. Qed.

Lemma flat_map_flat_map {A B C} (f : A -> list B) (g : B -> list C) l :
  flat_map g (flat_map f l) = flat_map (fun x => flat_map g (f x)) l.
Proof.
  induction l as [|x l IH]; simpl; [done|]. by rewrite flat_map_app, IH.
Qed.

Lemma flat_map_singleton {A} (l : list A) : flat_map (fun x => [x]) l = l.
Proof. induction l as [|x l IH]; simpl; [done|]. by rewrite IH. Qed.

Lemma detach_prune u n : detach u n = prune (fun v => bool_decide (v = u)) n.
Proof.
  induction n as [v k t a cs IH|s] using node_forall_ind; simpl; [|done].
  destruct (bool_decide (v = u)); [done|].
  by rewrite (flat_map_ext_Forall _ _ _ IH).
Qed.

Lemma remove_prune u f :
  remove u f = prune_forest (fun v => bool_decide (v = u)) f.
Proof.
  unfold remove, prune_forest. apply flat_map_ext_Forall, Forall_forall.
  intros n _. apply detach_prune.
Qed.

Lemma prune_ext q q' n : (forall v, q v = q' v) -> prune q n = prune q' n.
Proof.
  intros E. induction n as [v k t a cs IH|s] using node_forall_ind; simpl; [|done].
  rewrite E. destruct (q' v); [done|].
  by rewrite (flat_map_ext_Forall _ _ _ IH).
Qed.

Lemma prune_forest_ext q q' f :
  (forall v, q v = q' v) -> prune_forest q f = prune_forest q' f.
Proof.
  intros E. apply flat_map_ext_Forall, Forall_forall. intros n _.
  by apply prune_ext.
Qed.

Lemma prune_none q n : (forall v, q v = false) -> prune q n = [n].
Proof.
  intros E. induction n as [v k t a cs IH|s] using node_forall_ind; simpl; [|done].
  rewrite E. do 2 f_equal.
  rewrite (flat_map_ext_Forall _ _ _ IH). apply flat_map_singleton.
Qed.

Lemma prune_forest_none q f :
  (forall v, q v = false) -> prune_forest q f = f.
Proof.
  intros E. unfold prune_forest.
  rewrite (flat_map_ext_Forall _ (fun x => [x])).
  - apply flat_map_singleton.
  - apply Forall_forall. intros n _. by apply prune_none.
Qed.

(** Two prunings in a row are one pruning. *)
Lemma prune_prune q1 q2 n :
  prune_forest q2 (prune q1 n) = prune (fun v => q1 v || q2 v) n.
Proof.
  induction n as [v k t a cs IH|s] using node_forall_ind; simpl; [|done].
  destruct (q1 v); simpl; [done|].
  destruct (q2 v); simpl; [done|].
  do 2 f_equal. rewrite flat_map_flat_map.
  by apply flat_map_ext_Forall.
Qed.

Lemma prune_forest_twice q1 q2 f :
  prune_forest q2 (prune_forest q1 f) =
  prune_forest (fun v => q1 v || q2 v) f.
Proof.
  unfold prune_forest at 2 3. unfold prune_forest at 1.
  rewrite flat_map_flat_map. apply flat_map_ext_Forall, Forall_forall.
  intros n _. apply prune_prune.
Qed.

(** The loop [forEach(el => { if (P el) el.remove() })] over a static list
    prunes the elements of the list that satisfy [P]. *)
Lemma fold_remove (P : node -> bool) (l : list node) (f : list node) :
  fold_left (fun f n => if P n then remove (uid_of n) f else f) l f =
  prune_forest
    (fun v => bool_decide (v ∈ map uid_of (filter (fun n => P n = true) l)))
    f.
Proof.
  revert f. induction l as [|x l IH]; intros f; simpl.
  - symmetry. by apply prune_forest_none.
  - rewrite IH. rewrite filter_cons. destruct (P x) eqn:Hx.
    + rewrite decide_True by done. rewrite remove_prune, prune_forest_twice.
      apply prune_forest_ext. intros v. simpl.
      rewrite <- bool_decide_or. apply bool_decide_ext.
      by rewrite elem_of_cons.
    + by rewrite decide_False by done.
Qed.

Lemma remove_each_prune nodes f :
  Server.remove_each nodes f =
  prune_forest (fun v => bool_decide (v ∈ map uid_of nodes)) f.
Proof.
  unfold Server.remove_each.
  rewrite (fold_remove (fun _ => true) nodes f).
  apply prune_forest_ext. intros v. apply bool_decide_ext.
  assert (filter (fun _ : node => true = true) nodes = nodes) as ->; [|done].
  induction nodes as [|x l IH]; [done|].
  rewrite filter_cons, decide_True by done. by rewrite IH.
Qed.

Lemma heuristic_sweep_prune f :
  Server.heuristic_sweep f =
  prune_forest
    (fun v => bool_decide
       (v ∈ map uid_of
              (filter (fun n => Server.looks_like_ad n = true) (elements f))))
    f.
Proof.
  unfold Server.heuristic_sweep. rewrite fold_remove.
  apply prune_forest_ext. intros v. apply bool_decide_ext.
  unfold querySelectorAll.
  assert (filter (fun n => matches Universal n = true) (elements f)
          = elements f) as ->; [|done].
  induction (elements f) as [|x l IH]; [done|].
  rewrite filter_cons, decide_True by done. by rewrite IH.
Qed.

Lemma structural_sweep_prune f :
  exists q, Server.structural_sweep f = prune_forest q f.
Proof.
  unfold Server.structural_sweep.
  assert (forall sels g, (exists q, g = prune_forest q f) ->
    exists q, fold_left
      (fun f sel => Server.remove_each (querySelectorAll sel f) f) sels g
      = prune_forest q f) as H.
  { induction sels as [|sel sels IH]; intros g [q ->]; simpl; [by exists q|].
    apply IH. rewrite remove_each_prune, prune_forest_twice. eauto. }
  apply H. exists (fun _ => false). symmetry. by apply prune_forest_none.
Qed.

End PruneFacts.

(** ** What a pruning leaves and what it takes *)
Section PruneElements.
Import Dom Spec.
Variable q : nat -> bool.

Lemma elements_prune_node v k t a cs :
  q v = false ->
  elements (prune q (Element v k t a cs)) =
  Element v k t a (prune_forest q cs) :: elements (prune_forest q cs).
Proof. intros E. unfold elements. simpl. rewrite E. simpl. by rewrite app_nil_r. Qed.

Lemma elem_of_elements_prune_forest f n' :
  n' ∈ elements (prune_forest q f) <->
  exists c, c ∈ f /\ n' ∈ elements (prune q c).
Proof.
  unfold elements, prune_forest. rewrite flat_map_flat_map.
  apply elem_of_flat_map.
Qed.

(** Every element left by a pruning is an element of the original forest
    with the same shell, and it was not selected. *)
Lemma prune_node_shell c n' :
  n' ∈ elements (prune q c) ->
  exists n, n ∈ subtree c /\ shell n' = shell n /\ q (uid_of n) = false.
Proof.
  revert n'. induction c as [v k t a cs IH|s] using node_forall_ind; intros n'.
  - destruct (q v) eqn:E.
    + simpl. rewrite E. unfold elements. simpl. by rewrite elem_of_nil.
    + rewrite elements_prune_node by done. rewrite elem_of_cons.
      intros [->|H].
      * exists (Element v k t a cs). split; [apply subtree_self; done|done].
      * apply elem_of_elements_prune_forest in H. destruct H as [c [Hc H]].
        rewrite Forall_forall in IH. destruct (IH c Hc n' H) as [n [H1 H2]].
        exists n. split; [|done]. simpl. apply elem_of_cons. right.
        apply elem_of_flat_map. eauto.
  - simpl. unfold elements. simpl. by rewrite elem_of_nil.
Qed.

Lemma prune_forest_shell f n' :
  n' ∈ elements (prune_forest q f) ->
  exists n, n ∈ elements f /\ shell n' = shell n /\ q (uid_of n) = false.
Proof.
  intros H. apply elem_of_elements_prune_forest in H. destruct H as [c [Hc H]].
  destruct (prune_node_shell c n' H) as [n [H1 H2]].
  exists n. split; [|done]. apply elem_of_flat_map. eauto.
Qed.

Lemma uids_prune_forest f u : u ∈ uids (prune_forest q f) -> u ∈ uids f.
Proof.
  unfold uids. rewrite !list_elem_of_fmap. intros [n' [-> H]].
  destruct (prune_forest_shell f n' H) as [n [H1 [H2 _]]].
  exists n. split; [|done]. by injection H2.
Qed.

(** An element of the forest is either below (or is) a selected element,
    or it is left, with the same shell. *)
Lemma prune_node_survives c n :
  n ∈ subtree c ->
  (exists a, a ∈ subtree c /\ q (uid_of a) = true /\ n ∈ subtree a) \/
  (exists n', n' ∈ elements (prune q c) /\ shell n' = shell n).
Proof.
  revert n. induction c as [v k t a cs IH|s] using node_forall_ind; intros n Hn.
  - destruct (q v) eqn:E.
    + left. exists (Element v k t a cs). split; [apply subtree_self; done|done].
    + rewrite elements_prune_node by done. simpl in Hn.
      apply elem_of_cons in Hn. destruct Hn as [->|Hn].
      * right. eexists. split; [apply elem_of_cons; by left|done].
      * apply elem_of_flat_map in Hn. destruct Hn as [c [Hc Hn]].
        rewrite Forall_forall in IH.
        destruct (IH c Hc n Hn) as [[b [H1 H2]]|[n' [H1 H2]]].
        -- left. exists b. split; [|done]. simpl. apply elem_of_cons. right.
           apply elem_of_flat_map. eauto.
        -- right. exists n'. split; [|done]. apply elem_of_cons. right.
           apply elem_of_elements_prune_forest. eauto.
  - simpl in Hn. by apply elem_of_nil in Hn.
Qed.

Lemma prune_forest_survives f n :
  n ∈ elements f ->
  (exists a, a ∈ elements f /\ q (uid_of a) = true /\ n ∈ subtree a) \/
  (exists n', n' ∈ elements (prune_forest q f) /\ shell n' = shell n).
Proof.
  intros Hn. apply elem_of_flat_map in Hn. destruct Hn as [c [Hc Hn]].
  destruct (prune_node_survives c n Hn) as [[b [H1 H2]]|[n' [H1 H2]]].
  - left. exists b. split; [|done]. apply elem_of_flat_map. eauto.
  - right. exists n'. split; [|done].
    apply elem_of_elements_prune_forest. eauto.
Qed.

(** In a forest whose nodes have distinct identities, nothing of the
    subtree of a selected element is left. *)
Lemma prune_forest_absent_from (f : list node) :
  Forall (fun c => NoDup (map uid_of (subtree c)) ->
     forall n d, n ∈ subtree c -> q (uid_of n) = true -> d ∈ subtree n ->
     uid_of d ∉ uids (prune q c)) f ->
  NoDup (uids f) ->
  forall n d, n ∈ elements f -> q (uid_of n) = true -> d ∈ subtree n ->
  uid_of d ∉ uids (prune_forest q f).
Proof.
  induction 1 as [|c f Hc _ IH]; intros ND n d Hn Hq Hd.
  - unfold elements in Hn. simpl in Hn. by apply elem_of_nil in Hn.
  - rewrite uids_cons in ND. apply NoDup_app in ND.
    destruct ND as [ND1 [ND2 ND3]].
    change (prune_forest q (c :: f)) with (prune q c ++ prune_forest q f).
    rewrite uids_app, elem_of_app.
    change (elements (c :: f)) with (subtree c ++ elements f) in Hn.
    apply elem_of_app in Hn. destruct Hn as [Hn|Hn].
    + assert (d ∈ subtree c) as Hdc by eauto using subtree_trans.
      intros [H|H].
      * by apply (Hc ND1 n d).
      * apply uids_prune_forest in H.
        apply (ND2 (uid_of d)); [by apply list_elem_of_fmap_2|done].
    + assert (d ∈ elements f) as Hdf by eauto using subtree_elements.
      intros [H|H].
      * assert (uid_of d ∈ uids [c]) as H'.
        { apply uids_prune_forest. unfold prune_forest. simpl.
          by rewrite app_nil_r. }
        unfold uids, elements in H'. simpl in H'. rewrite app_nil_r in H'.
        apply (ND2 (uid_of d) H'). by apply elem_of_uids.
      * by apply (IH ND3 n d).
Qed.

Lemma prune_node_absent c :
  NoDup (map uid_of (subtree c)) ->
  forall n d, n ∈ subtree c -> q (uid_of n) = true -> d ∈ subtree n ->
  uid_of d ∉ uids (prune q c).
Proof.
  induction c as [v k t a cs IH|s] using node_forall_ind; intros ND n d Hn Hq Hd.
  - destruct (q v) eqn:E.
    + simpl. rewrite E. unfold uids, elements. simpl. apply not_elem_of_nil.
    + unfold uids. rewrite elements_prune_node by done. simpl.
      simpl in ND. apply NoDup_cons in ND. destruct ND as [ND1 ND2].
      simpl in Hn. apply elem_of_cons in Hn. destruct Hn as [->|Hn].
      * simpl in Hq. congruence.
      * assert (d ∈ elements cs) as Hdc by eauto using subtree_elements.
        rewrite not_elem_of_cons. split.
        -- intros Ev. apply ND1. rewrite <- Ev. by apply list_elem_of_fmap_2.
        -- by apply (prune_forest_absent_from cs IH ND2 n d).
  - simpl in Hn. by apply elem_of_nil in Hn.
Qed.

Lemma prune_forest_absent f :
  NoDup (uids f) ->
  forall n d, n ∈ elements f -> q (uid_of n) = true -> d ∈ subtree n ->
  uid_of d ∉ uids (prune_forest q f).
Proof.
  apply prune_forest_absent_from, Forall_forall. intros c _.
  apply prune_node_absent.
Qed.

End PruneElements.

(** ** The heuristic sweep *)
Section SweepFacts.
Import Regex Dom Spec Server.

Lemma or_empty_id s : or_empty s = s.
Proof. by destruct s. Qed.


Lemma cls_of_animated el : ns_of el = SVG -> cls_of el = "".
Proof. intros H. unfold cls_of, className. by rewrite H. Qed.

Lemma first_match_Some ps id cls :
  is_Some (first_match ps id cls) <->
  exists p, p ∈ ps /\ (test p id = true \/ test p cls = true).
Proof.
  induction ps as [|p ps IH]; simpl.
  - split; [by intros [? ?]|]. intros [p [H _]]. by apply elem_of_nil in H.
  - destruct (test p id || test p cls) eqn:E.
    + split; [|by eauto]. intros _. exists p.
      split; [apply elem_of_cons; by left|]. by apply orb_true_iff.
    + rewrite IH. apply orb_false_iff in E. destruct E as [E1 E2]. split.
      * intros [r [H1 H2]]. exists r. split; [|done].
        apply elem_of_cons. by right.
      * intros [r [H1 H2]]. apply elem_of_cons in H1.
        destruct H1 as [->|H1]; [|by eauto].
        destruct H2; congruence.
Qed.


(** The five patterns match exactly the strings that contain one of the
    six words. *)
Lemma ad_pattern_word s :
  (exists p, p ∈ adPatterns /\ test p s = true) <-> has_ad_word s.
Proof.
  unfold has_ad_word, adPatterns, ad_words. split.
  - intros [p [Hp Ht]]. repeat (apply elem_of_cons in Hp as [->|Hp]).
    + exists "advert". split; [set_solver|by apply test_word].
    + exists "ad". split; [set_solver|by apply test_ads].
    + exists "banner". split; [set_solver|by apply test_word].
    + exists "sponsored". split; [set_solver|by apply test_word].
    + exists "promoted". split; [set_solver|by apply test_word].
    + by apply elem_of_nil in Hp.
  - intros [w [Hw Hc]]. repeat (apply elem_of_cons in Hw as [->|Hw]).
    + eexists. split; [|by apply test_ads]. set_solver.
    + eexists. split; [|apply test_ads, (contains_ci_prefix "ad" "s"), Hc].
      set_solver.
    + exists (word "advert"). split; [set_solver|by apply test_word].
    + exists (word "banner"). split; [set_solver|by apply test_word].
    + exists (word "sponsored"). split; [set_solver|by apply test_word].
    + exists (word "promoted"). split; [set_solver|by apply test_word].
    + by apply elem_of_nil in Hw.
Qed.

Lemma has_ad_word_empty : ~ has_ad_word "".
Proof.
  intros [w [Hw Hc]]. revert Hc. apply contains_ci_empty.
  unfold ad_words in Hw.
  repeat (apply elem_of_cons in Hw as [->|Hw]); try done.
  by apply elem_of_nil in Hw.
Qed.

(** The decision of the sweep, in the words of the specification. *)
Lemma looks_like_ad_words el :
  looks_like_ad el = true <->
  has_ad_word (Dom.id el) \/ has_ad_word (cls_of el).
Proof.
  unfold looks_like_ad. rewrite or_empty_id.
  rewrite <- !ad_pattern_word.
  pose proof (first_match_Some adPatterns (Dom.id el) (cls_of el)) as H.
  destruct (first_match adPatterns (Dom.id el) (cls_of el)) as [p|].
  - split; [intros _|done].
    destruct (proj1 H) as [r [H1 [H2|H2]]]; eauto.
  - split; [done|]. intros H'. destruct (proj2 H) as [? ?]; [|done].
    destruct H' as [[r [H1 H2]]|[r [H1 H2]]]; eauto.
Qed.

Lemma looks_like_ad_shell n n' :
  shell n = shell n' -> looks_like_ad n = looks_like_ad n'.
Proof.
  unfold shell. intros E. injection E as E1 E2 E3 E4.
  unfold looks_like_ad, cls_of, className, Dom.id, reflect, getAttribute.
  by rewrite E2, E4.
Qed.

(** The document after the two sweeps is a pruning of the fetched one that
    selects every element that looks like an ad, or an ancestor of it. *)
Lemma cleaned_prune raw :
  exists q, cleaned raw = prune_forest q raw /\
    forall e, e ∈ elements raw -> looks_like_ad e = true ->
      exists a, a ∈ elements raw /\ q (uid_of a) = true /\ e ∈ subtree a.
Proof.
  unfold cleaned. destruct (structural_sweep_prune raw) as [q1 ->].
  rewrite heuristic_sweep_prune, prune_forest_twice.
  eexists. split; [reflexivity|]. intros e He Hl. simpl.
  destruct (prune_forest_survives q1 raw e He) as [[a [H1 [H2 H3]]]|[e' [H1 H2]]].
  - exists a. split; [done|]. split; [by rewrite H2|done].
  - exists e. split; [done|]. split.
    + apply orb_true_iff. right. apply bool_decide_eq_true.
      assert (uid_of e = uid_of e') as -> by (by injection H2).
      apply list_elem_of_fmap_2, list_elem_of_filter. split; [|done].
      by rewrite (looks_like_ad_shell e' e).
    + by apply subtree_self, (elements_element raw).
Qed.

(** A pruning leaves no element that the forest did not have. *)
Lemma prune_forest_tag q f t :
  (forall n, n ∈ elements f -> tag_of n <> t) ->
  forall n', n' ∈ elements (prune_forest q f) -> tag_of n' <> t.
Proof.
  intros H n' Hn'. destruct (prune_forest_shell q f n' Hn') as [n [H1 [H2 _]]].
  assert (tag_of n' = tag_of n) as -> by (by injection H2). by apply H.
Qed.

(** After the loop for a type selector no element of that tag is left. *)
Lemma remove_each_tag f t n' :
  n' ∈ elements (remove_each (querySelectorAll (TypeSel t) f) f) ->
  tag_of n' <> t.
Proof.
  rewrite remove_each_prune. intros Hn' Ht.
  destruct (prune_forest_shell _ f n' Hn') as [n [H1 [H2 H3]]].
  apply bool_decide_eq_false in H3. apply H3.
  apply list_elem_of_fmap_2. unfold querySelectorAll.
  apply list_elem_of_filter. split; [|done]. simpl.
  apply bool_decide_eq_true. rewrite <- Ht. by injection H2.
Qed.

Lemma sweep_selectors_tag sels f t :
  TypeSel t ∈ sels \/ (forall n, n ∈ elements f -> tag_of n <> t) ->
  forall n', n' ∈ elements
    (fold_left (fun f sel => remove_each (querySelectorAll sel f) f) sels f) ->
  tag_of n' <> t.
Proof.
  revert f. induction sels as [|sel sels IH]; intros f H; simpl.
  - destruct H as [H|H]; [by apply elem_of_nil in H|done].
  - apply IH. destruct H as [H|H].
    + apply elem_of_cons in H. destruct H as [<-|H]; [|by left].
      right. intros n. apply remove_each_tag.
    + right. rewrite remove_each_prune. by apply prune_forest_tag.
Qed.

(** The cleaned document has no element of a tag of the structural
    sweep. *)
Lemma cleaned_tags raw n :
  n ∈ elements (cleaned raw) -> tag_of n ∉ swept_tags.
Proof.
  unfold cleaned. rewrite heuristic_sweep_prune. intros Hn Ht.
  assert (tag_of n <> tag_of n) as Hne; [|done].
  apply (prune_forest_tag _ (structural_sweep raw) (tag_of n)) in Hn; [done|].
  intros m Hm.
  apply (sweep_selectors_tag structural_selectors raw (tag_of n)); [|exact Hm].
  left. unfold swept_tags in Ht. unfold structural_selectors.
  repeat (apply elem_of_cons in Ht as [->|Ht];
          [repeat first [apply list_elem_of_here|apply list_elem_of_further]|]).
  by apply elem_of_nil in Ht.
Qed.

End SweepFacts.

(** ** The allow-list filter *)
Section SanitizeFacts.
Import Dom Spec Sanitize.
Variable L : library.
Variable o : options.


(** Every element of the output stems from an element of the input with
    an allowed tag, and has of its attributes what the filter makes of
    them. *)
Lemma sanitize_node_elements c n' :
  n' ∈ elements (sanitize_node L o c) ->
  tag_of n' ∈ allowedTags o /\
  exists n, n ∈ subtree c /\ uid_of n' = uid_of n /\ tag_of n' = tag_of n /\
    attrs_of n' = sanitize_attributes L o (tag_of n) (attrs_of n).
Proof.
  revert n'. induction c as [u k t a cs IH|s] using node_forall_ind; intros n'.
  - assert (forall m, m ∈ elements (flat_map (sanitize_node L o) cs) ->
      tag_of m ∈ allowedTags o /\
      exists n, n ∈ subtree (Element u k t a cs) /\ uid_of m = uid_of n /\
        tag_of m = tag_of n /\
        attrs_of m = sanitize_attributes L o (tag_of n) (attrs_of n)) as Hkids.
    { intros m Hm. unfold elements in Hm. rewrite flat_map_flat_map in Hm.
      apply elem_of_flat_map in Hm. destruct Hm as [c [Hc Hm]].
      rewrite Forall_forall in IH.
      destruct (IH c Hc m Hm) as [H1 [n [H2 H3]]].
      split; [done|]. exists n. split; [|done]. simpl.
      apply elem_of_cons. right. apply elem_of_flat_map. eauto. }
    simpl. destruct (bool_decide (t ∈ allowedTags o)) eqn:Et.
    + unfold elements. simpl. rewrite app_nil_r, elem_of_cons.
      intros [->|H]; [|by apply Hkids].
      apply bool_decide_eq_true in Et. split; [done|].
      exists (Element u k t a cs). split; [apply subtree_self; done|done].
    + destruct (bool_decide (t ∈ nonTextTags L)).
      * unfold elements. simpl. by rewrite elem_of_nil.
      * apply Hkids.
  - simpl. unfold elements. simpl. by rewrite elem_of_nil.
Qed.

(** The elements of the output stem from the elements the parser of the
    library finds in the markup. *)
Lemma sanitizeHtml_elements h n' :
  n' ∈ elements (sanitizeHtml L o h) ->
  tag_of n' ∈ allowedTags o /\
  exists n, n ∈ elements (parse L h) /\ uid_of n' = uid_of n /\
    tag_of n' = tag_of n /\
    attrs_of n' = sanitize_attributes L o (tag_of n) (attrs_of n).
Proof.
  unfold sanitizeHtml, elements. rewrite flat_map_flat_map.
  intros H. apply elem_of_flat_map in H. destruct H as [c [Hc H]].
  destruct (sanitize_node_elements c n' H) as [H1 [n [H2 H3]]].
  split; [done|]. exists n. split; [|done]. apply elem_of_flat_map. eauto.
Qed.

Lemma sanitize_attributes_lookup t a name v :
  sanitize_attributes L o t a !! name = Some v <->
  attribute_allowed o t name = true /\
  exists v0, a !! name = Some v0 /\ filter_value L t name v0 = Some v.
Proof.
  unfold sanitize_attributes, sanitize_attribute. rewrite map_lookup_imap.
  destruct (a !! name) as [v0|]; simpl.
  - destruct (attribute_allowed o t name); split.
    + intros H. split; [done|]. by exists v0.
    + intros [_ [v1 [[= <-] H]]]. done.
    + done.
    + by intros [? _].
  - split; [done|]. by intros [_ [v0 [? _]]].
Qed.



End SanitizeFacts.

(** ** The request handler *)
Section HandlerFacts.
Import Regex Dom Spec Server.

Lemma test_url_pattern_truthy t : test url_pattern t = true -> truthy t = true.
Proof. by destruct t. Qed.

(** The handler on a target that passes validation. *)
Lemma handle_valid w t :
  test url_pattern t = true ->
  handle w {| target := Some t |} =
  ([Outbound t user_agent 15000%N],
   match fetch w (Outbound t user_agent 15000%N) with
   | FetchRejected => Json 500 "Server error"
   | FetchResponse status raw =>
       if ok status
       then Page "text/html; charset=utf-8"
              (wrapper w t
                 (clean w (content_html
                    (select_content w t raw (cleaned raw)))))
       else Json 502 "Failed to fetch target"
   | FetchUnreadable status =>
       if ok status then Json 500 "Server error"
       else Json 502 "Failed to fetch target"
   end).
Proof.
  intros Ht. unfold handle, try_catch, fetch_route. cbn [target].
  rewrite Ht, (test_url_pattern_truthy t Ht). simpl negb. simpl orb. cbv iota.
  unfold mbind, handler_bind, await_fetch, await_text. simpl app.
  destruct (fetch w _) as [|status raw|status]; [done|..];
    destruct (ok status); done.
Qed.

Lemma handle_invalid w req :
  match target req with
  | None => True
  | Some t => test url_pattern t = false
  end ->
  handle w req = ([], Json 400 "Invalid URL").
Proof.
  unfold handle, try_catch, fetch_route. destruct (target req) as [t|]; [|done].
  intros ->. by rewrite orb_true_r.
Qed.

(** A page is sent only for a valid target and a success status, and it
    is the wrapper around the sanitised content. *)
Lemma handle_page w req tr ct page :
  handle w req = (tr, Page ct page) ->
  exists t status raw,
    target req = Some t /\ test url_pattern t = true /\
    fetch w (Outbound t user_agent 15000%N) = FetchResponse status raw /\
    ok status = true /\
    page = wrapper w t
             (clean w (content_html (select_content w t raw (cleaned raw)))).
Proof.
  destruct req as [[t|]]; [|by rewrite handle_invalid].
  destruct (test url_pattern t) eqn:Ht; [|by rewrite handle_invalid].
  rewrite handle_valid by done.
  destruct (fetch w _) as [|status raw|status] eqn:Ef; [done| |].
  - destruct (ok status) eqn:Eo; [|done].
    intros H. injection H as _ _ <-. exists t, status, raw. eauto 6.
  - destruct (ok status); done.
Qed.

Lemma ok_range status : ok status = true <-> 200 <= status <= 299.
Proof.
  unfold ok. rewrite andb_true_iff, !Nat.leb_le. reflexivity.
Qed.

(** [/^https?:\/\//i] accepts the strings that start with [http://] or
    [https://], in any case. *)
Lemma test_url_pattern t :
  test url_pattern t = true <->
  (exists rest, lower_string t = "http://" +:+ rest) \/
  (exists rest, lower_string t = "https://" +:+ rest).
Proof.
  change "http://" with (lower_string "http://").
  change "https://" with (lower_string "https://").
  rewrite <- !match_here_lits, <- orb_true_iff.
  assert (test url_pattern t =
          match_here (lits "http://") t || match_here (lits "https://") t)
    as ->; [|done].
  unfold test, url_pattern; simpl anchored; simpl atoms.
  destruct t as [|c1 [|c2 [|c3 [|c4 [|c5 t]]]]]; simpl;
    repeat match goal with
           | |- context [ci_eqb ?a ?b] => destruct (ci_eqb a b); simpl
           end; try reflexivity;
    repeat match goal with
           | |- context [match ?s with EmptyString => _ | String _ _ => _ end] =>
               destruct s; simpl
           | |- context [ci_eqb ?a ?b] => destruct (ci_eqb a b); simpl
           end; reflexivity.
Qed.

End HandlerFacts.

(** ** The page wrapper *)
Section WrapperFacts.
Import Dom Spec Server.

Lemma subtree_el t a cs : subtree (el t a cs) = el t a cs :: elements cs.
Proof. reflexivity. Qed.

Lemma tag_el t a cs : tag_of (el t a cs) = t.
Proof. reflexivity. Qed.

Lemma elements_cons n f : elements (n :: f) = subtree n ++ elements f.
Proof. reflexivity. Qed.

Lemma elements_text s f : elements (Text s :: f) = elements f.
Proof. reflexivity. Qed.

Lemma elements_nil : elements [] = [].
Proof. reflexivity. Qed.

(** The elements of a page: those of the template, those of the two
    copies of the sanitised target, and those of the content. *)
Lemma wrapper_elements w t c n :
  n ∈ elements (wrapper w t c) ->
  tag_of n ∈ wrapper_tags \/ n ∈ elements (sanitized_target w t) \/
  n ∈ elements c.
Proof.
  unfold wrapper. intros H.
  repeat first
    [ rewrite elements_text in H
    | rewrite elements_cons in H
    | rewrite subtree_el in H
    | rewrite elements_nil in H
    | rewrite elem_of_app in H
    | rewrite elem_of_cons in H
    | rewrite elem_of_nil in H ].
  unfold wrapper_tags.
  repeat match type of H with
         | _ \/ _ => destruct H as [H|H]
         end;
    try (subst n; left; rewrite tag_el; set_solver);
    try (by right; left); try (by right; right); try done.
Qed.


(** The content is what is in the [main] element of the page. *)
Lemma wrapper_main w t c : el "main" [] c ∈ elements (wrapper w t c).
Proof.
  unfold wrapper.
  repeat first
    [ rewrite elements_text
    | rewrite elements_cons
    | rewrite subtree_el
    | rewrite elements_nil
    | rewrite elem_of_app
    | rewrite elem_of_cons ].
  tauto.
Qed.




Lemma wrapper_tags_not_swept t : t ∈ wrapper_tags -> t ∉ swept_tags.
Proof.
  revert t. apply Forall_forall. apply (bool_decide_unpack _). by vm_compute.
Qed.

Lemma added_tags_not_swept t :
  t ∈ ["img"; "h1"; "h2"; "h3"; "table"; "thead"; "tbody"; "tr"; "th"; "td"] ->
  t ∉ swept_tags.
Proof.
  revert t. apply Forall_forall. apply (bool_decide_unpack _). by vm_compute.
Qed.

End WrapperFacts.

(** ** Attributes after sanitization *)
Section AttributeFacts.
Import Dom Spec Server.




End AttributeFacts.

(** ** Node identities *)
Section IdentityFacts.
Import Dom Spec Server.

Lemma NoDup_fmap_eq {A B} (g : A -> B) (l : list A) a b :
  NoDup (map g l) -> a ∈ l -> b ∈ l -> g a = g b -> a = b.
Proof.
  induction l as [|x l IH]; simpl; intros ND Ha Hb E.
  - by apply elem_of_nil in Ha.
  - apply NoDup_cons in ND. destruct ND as [Hx ND].
    apply elem_of_cons in Ha. apply elem_of_cons in Hb.
    destruct Ha as [->|Ha], Hb as [->|Hb]; [done| | |by apply IH].
    + exfalso. apply Hx. rewrite E. by apply list_elem_of_fmap_2.
    + exfalso. apply Hx. rewrite <- E. by apply list_elem_of_fmap_2.
Qed.

Lemma uid_inj f a b :
  NoDup (uids f) -> a ∈ elements f -> b ∈ elements f ->
  uid_of a = uid_of b -> a = b.
Proof. apply NoDup_fmap_eq. Qed.

(** With distinct identities, the heuristic sweep selects exactly the
    elements that look like an ad. *)
Lemma heuristic_selects f a :
  NoDup (uids f) -> a ∈ elements f ->
  uid_of a ∈ map uid_of
    (filter (fun n => looks_like_ad n = true) (elements f)) <->
  looks_like_ad a = true.
Proof.
  intros ND Ha. rewrite list_elem_of_fmap. split.
  - intros [b [E Hb]]. apply list_elem_of_filter in Hb.
    destruct Hb as [Hl Hb]. by rewrite (uid_inj f a b ND Ha Hb E).
  - intros Hl. exists a. split; [done|]. by apply list_elem_of_filter.
Qed.

(** An element that does not look like an ad, below no element that does,
    stays in the document; one that does is gone. *)
Lemma heuristic_sweep_keeps f e :
  NoDup (uids f) -> e ∈ elements f ->
  (forall a, a ∈ elements f -> a <> e -> e ∈ subtree a ->
             looks_like_ad a = false) ->
  uid_of e ∈ uids (heuristic_sweep f) <-> looks_like_ad e = false.
Proof.
  intros ND He Hanc. rewrite heuristic_sweep_prune.
  set (q := fun v => bool_decide (v ∈ map uid_of
    (filter (fun n => looks_like_ad n = true) (elements f)))).
  split.
  - intros Hin. destruct (looks_like_ad e) eqn:El; [|done]. exfalso.
    apply (prune_forest_absent q f ND e e He); [|by apply subtree_self, (elements_element f)|done].
    apply bool_decide_eq_true. by apply heuristic_selects.
  - intros El.
    destruct (prune_forest_survives q f e He) as [[a [H1 [H2 H3]]]|[n' [H1 H2]]].
    + exfalso. apply bool_decide_eq_true in H2.
      apply heuristic_selects in H2; [|done|done].
      destruct (decide (uid_of a = uid_of e)) as [E|E].
      * rewrite (uid_inj f a e ND H1 He E) in H2. congruence.
      * rewrite (Hanc a H1) in H2; [done| |done]. by intros ->.
    + assert (uid_of e = uid_of n') as -> by (by injection H2).
      by apply elem_of_uids.
Qed.

End IdentityFacts.

(** ** The content and the cleaned document *)
Section ContentFacts.
Import Dom Spec Server.



End ContentFacts.

(** ** Updating attributes in place *)
Section UpdateFacts.
Import Dom Spec Server.

Lemma map_ext_Forall {A B} (f g : A -> B) (l : list A) :
  Forall (fun x => f x = g x) l -> map f l = map g l.
Proof. induction 1 as [|x l Hx _ IH]; simpl; [done|]. by rewrite Hx, IH. Qed.

Lemma update_retag u g n :
  update u g n = retag (fun v _ a => if bool_decide (v = u) then g a else a) n.
Proof.
  induction n as [v k t a cs IH|s] using node_forall_ind; simpl; [|done].
  by rewrite (map_ext_Forall _ _ _ IH).
Qed.

Lemma retag_retag g1 g2 n :
  retag g2 (retag g1 n) = retag (fun v t a => g2 v t (g1 v t a)) n.
Proof.
  induction n as [v k t a cs IH|s] using node_forall_ind; simpl; [|done].
  rewrite map_map. by rewrite (map_ext_Forall _ _ _ IH).
Qed.

(** Two changes that agree on the elements of a node change it alike. *)
Lemma retag_ext g g' n :
  (forall m, m ∈ subtree n ->
     g (uid_of m) (tag_of m) (attrs_of m) =
     g' (uid_of m) (tag_of m) (attrs_of m)) ->
  retag g n = retag g' n.
Proof.
  induction n as [v k t a cs IH|s] using node_forall_ind; simpl; [|done].
  intros H. f_equal.
  - apply (H (Element v k t a cs)). apply elem_of_cons. by left.
  - apply map_ext_Forall. rewrite Forall_forall in IH |- *.
    intros c Hc. apply IH; [done|]. intros m Hm. apply H.
    apply elem_of_cons. right. apply elem_of_flat_map. eauto.
Qed.

Lemma map_retag_ext g g' f :
  (forall m, m ∈ elements f ->
     g (uid_of m) (tag_of m) (attrs_of m) =
     g' (uid_of m) (tag_of m) (attrs_of m)) ->
  map (retag g) f = map (retag g') f.
Proof.
  intros H. apply map_ext_Forall, Forall_forall. intros c Hc.
  apply retag_ext. intros m Hm. apply H. apply elem_of_flat_map. eauto.
Qed.

Lemma subtree_retag g n : subtree (retag g n) = map (retag g) (subtree n).
Proof.
  induction n as [v k t a cs IH|s] using node_forall_ind; simpl; [|done].
  f_equal. induction IH as [|c cs Hc _ IH']; simpl; [done|].
  by rewrite map_app, Hc, IH'.
Qed.

Lemma elements_retag g f :
  elements (map (retag g) f) = map (retag g) (elements f).
Proof.
  unfold elements. induction f as [|c f IH]; simpl; [done|].
  by rewrite map_app, subtree_retag, IH.
Qed.

Lemma uid_retag g n : uid_of (retag g n) = uid_of n.
Proof. by destruct n. Qed.

Lemma tag_retag g n : tag_of (retag g n) = tag_of n.
Proof. by destruct n. Qed.

Lemma attrs_retag g n :
  is_element n = true ->
  attrs_of (retag g n) = g (uid_of n) (tag_of n) (attrs_of n).
Proof. by destruct n. Qed.

Lemma uids_retag g f : uids (map (retag g) f) = uids f.
Proof.
  unfold uids. rewrite elements_retag, map_map.
  apply map_ext. intros n. apply uid_retag.
Qed.

Lemma NoDup_map_filter {A B} (g : A -> B) (P : A -> Prop)
    `{forall x, Decision (P x)} (l : list A) :
  NoDup (map g l) -> NoDup (map g (filter P l)).
Proof.
  induction l as [|x l IH]; simpl; [done|]. intros ND.
  apply NoDup_cons in ND. destruct ND as [Hx ND].
  rewrite filter_cons. destruct (decide (P x)); [|by apply IH].
  simpl. apply NoDup_cons. split; [|by apply IH].
  intros Hin. apply Hx. apply list_elem_of_fmap in Hin.
  destruct Hin as [y [E Hy]]. apply list_elem_of_filter in Hy.
  rewrite E. apply list_elem_of_fmap_2. by destruct Hy.
Qed.

(** The loop [nodes.forEach(n => update n)] over nodes with distinct
    identities changes each of them once. *)
Lemma update_each_retag g nodes f :
  NoDup (map uid_of nodes) ->
  update_each g nodes f =
  map (retag (fun v _ a =>
         if bool_decide (v ∈ map uid_of nodes) then g a else a)) f.
Proof.
  unfold update_each. revert f.
  induction nodes as [|x nodes IH]; intros f ND; cbn [fold_left].
  - symmetry. rewrite <- (map_id f) at 2. apply map_ext_Forall, Forall_forall.
    intros c _. induction c as [v k t a cs IHc|s] using node_forall_ind; simpl; [|done].
    f_equal. rewrite <- (map_id cs) at 2. by apply map_ext_Forall.
  - change (map uid_of (x :: nodes)) with (uid_of x :: map uid_of nodes) in *.
    apply NoDup_cons in ND. destruct ND as [Hx ND].
    rewrite IH by done. unfold updateAttributes. rewrite map_map.
    apply map_ext. intros c. rewrite update_retag, retag_retag.
    apply retag_ext. intros m _. cbn beta.
    destruct (decide (uid_of m = uid_of x)) as [E|E].
    + rewrite (bool_decide_eq_true_2 _ E), E.
      rewrite (bool_decide_eq_false_2 _ Hx).
      rewrite bool_decide_eq_true_2; [done|]. apply elem_of_cons. by left.
    + rewrite (bool_decide_eq_false_2 _ E).
      destruct (decide (uid_of m ∈ map uid_of nodes)) as [Hm|Hm].
      * rewrite (bool_decide_eq_true_2 _ Hm).
        rewrite bool_decide_eq_true_2; [done|]. apply elem_of_cons. by right.
      * rewrite (bool_decide_eq_false_2 _ Hm).
        rewrite bool_decide_eq_false_2; [done|].
        rewrite elem_of_cons. tauto.
Qed.

End UpdateFacts.

(** ** The rewriting of the fallback path *)
Section FallbackFacts.
Import Dom Spec Server.

Lemma query_tag_uids f t n :
  NoDup (uids f) -> n ∈ elements f ->
  uid_of n ∈ map uid_of (querySelectorAll (TypeSel t) f) <-> tag_of n = t.
Proof.
  intros ND Hn. unfold querySelectorAll. rewrite list_elem_of_fmap. split.
  - intros [m [E Hm]]. apply list_elem_of_filter in Hm. destruct Hm as [Hm Hin].
    rewrite (uid_inj f n m ND Hn Hin E). simpl in Hm.
    by apply bool_decide_eq_true in Hm.
  - intros Ht. exists n. split; [done|]. apply list_elem_of_filter.
    split; [|done]. simpl. by apply bool_decide_eq_true.
Qed.

Lemma query_NoDup f sel :
  NoDup (uids f) -> NoDup (map uid_of (querySelectorAll sel f)).
Proof. apply NoDup_map_filter. Qed.

(** One loop of the fallback path: the elements of tag [t] are changed by
    [g], the others are left alone. *)
Lemma update_each_tag g t f :
  NoDup (uids f) ->
  update_each g (querySelectorAll (TypeSel t) f) f =
  map (retag (fun _ t' a => if bool_decide (t' = t) then g a else a)) f.
Proof.
  intros ND. rewrite update_each_retag by by apply query_NoDup.
  apply map_retag_ext. intros m Hm.
  apply (query_tag_uids f t m ND) in Hm.
  destruct (decide (tag_of m = t)) as [E|E].
  - rewrite (bool_decide_eq_true_2 _ E).
    by rewrite bool_decide_eq_true_2 by by apply Hm.
  - rewrite (bool_decide_eq_false_2 _ E).
    rewrite bool_decide_eq_false_2; [done|]. intros H. by apply E, Hm.
Qed.

(** The two loops of the fallback path change every anchor and every
    image of the document once, and nothing else. *)
Lemma absolutize_retag w base f :
  NoDup (uids f) ->
  absolutize w base f = map (retag (fun _ => absolutized w base)) f.
Proof.
  intros ND. unfold absolutize. rewrite (update_each_tag _ "a" f ND).
  rewrite update_each_tag by by rewrite uids_retag.
  rewrite map_map. apply map_ext. intros c. rewrite retag_retag.
  apply retag_ext. intros m _. unfold absolutized.
  destruct (decide (tag_of m = "a")) as [E|E].
  - rewrite E. reflexivity.
  - rewrite (bool_decide_eq_false_2 _ E). reflexivity.
Qed.

Lemma is_element_retag g n : is_element (retag g n) = is_element n.
Proof. by destruct n. Qed.

Lemma ns_retag g n : ns_of (retag g n) = ns_of n.
Proof. by destruct n. Qed.

Lemma children_retag g n :
  children_of (retag g n) = map (retag g) (children_of n).
Proof. by destruct n. Qed.

Lemma first_child_retag g (p : node -> bool) cs :
  (forall n, p (retag g n) = p n) ->
  first_child p (map (retag g) cs) = retag g <$> first_child p cs.
Proof.
  intros Hp. unfold first_child. induction cs as [|c cs IH]; simpl; [done|].
  rewrite !filter_cons, Hp. by destruct (decide (p c = true)).
Qed.

Lemma is_html_retag g t n : is_html t (retag g n) = is_html t n.
Proof. unfold is_html. by rewrite is_element_retag, ns_retag, tag_retag. Qed.

Lemma body_retag g f : body (map (retag g) f) = retag g <$> body f.
Proof.
  unfold body, documentElement.
  rewrite first_child_retag by apply is_element_retag.
  destruct (first_child is_element f) as [root|]; simpl; [|done].
  rewrite is_html_retag. destruct (is_html "html" root); [|done].
  rewrite children_retag. apply first_child_retag.
  intros n. by rewrite !is_html_retag.
Qed.


End FallbackFacts.

Section RewriteFacts.
Import Dom Spec Server.

Lemma rewrite_anchor_spec w base a :
  rewritten w base "href" a (rewrite_anchor w base a) /\
  rewrite_anchor w base a !! "target" = Some "_blank" /\
  rewrite_anchor w base a !! "rel" = Some "noopener noreferrer".
Proof.
  unfold rewritten, rewrite_anchor, toAbsolute. split; [|split].
  - rewrite !lookup_insert_ne by done.
    destruct (a !! "href") as [v|] eqn:E; [|done].
    destruct (truthy v); [|done].
    rewrite lookup_insert_eq. by destruct (URL w v base).
  - by rewrite lookup_insert_eq.
  - rewrite lookup_insert_ne by done. by rewrite lookup_insert_eq.
Qed.


(** The content of the fallback path when the document has a body. *)
Lemma select_content_fallback w t raw doc' r b :
  Readability_parse w (Document t (cleaned raw)) = (doc', r) ->
  article_html w r = None ->
  NoDup (uids (docNodes doc')) ->
  body (docNodes doc') = Some b ->
  select_content w t raw (cleaned raw) =
  FromFallback (map (retag (fun _ => absolutized w t)) (children_of b)).
Proof.
  intros Hr Ha ND Hb. unfold select_content. rewrite Hr, Ha.
  rewrite absolutize_retag by done. unfold body_or_raw.
  rewrite body_retag, Hb. simpl. unfold innerHTML.
  by rewrite children_retag.
Qed.

End RewriteFacts.

(** ** Where the nodes of a page come from *)
Section ProvenanceFacts.
Import Dom Spec Server.










End ProvenanceFacts.

(** * The claims of the specification *)


Lemma article_page_NoDup : NoDup (Dom.uids Examples.article_page).
Proof. apply (bool_decide_unpack _). by vm_compute. Qed.



(** C2: the document after the sweeps has no [script], [iframe], [ins],
    [amp-ad] or [amp-analytics] element; and, provided the default tag list
    of the sanitizer has none of these tags, no page the handler sends has
    an element with one of them, on whichever path the content was
    chosen. *)
Theorem no_swept_tag_in_page (w : World) :
  (forall (raw : html) (n : node),
     n ∈ Dom.elements (Server.cleaned raw) -> Dom.tag_of n ∉ Spec.swept_tags) /\
  ((forall t, t ∈ Spec.swept_tags ->
              t ∉ Sanitize.defaults_allowedTags (sanitize_html w)) ->
   forall (req : Request) (tr : list outbound) (ct : string) (page : html),
     Server.handle w req = (tr, Page ct page) ->
     forall n, n ∈ Dom.elements page -> Dom.tag_of n ∉ Spec.swept_tags).
Proof.
  split; [apply cleaned_tags|].
  intros Hd req tr ct page Hp n Hn Hbad.
  destruct (handle_page w req tr ct page Hp) as [t [status [raw [_ [_ [_ [_ ->]]]]]]].
  apply wrapper_elements in Hn. destruct Hn as [Hn|[Hn|Hn]].
  - by apply (wrapper_tags_not_swept (Dom.tag_of n)).
  - apply sanitizeHtml_elements in Hn. destruct Hn as [Hn _].
    by apply (Hd _ Hbad).
  - apply sanitizeHtml_elements in Hn. destruct Hn as [Hn _].
    simpl in Hn. apply elem_of_app in Hn. destruct Hn as [Hn|Hn].
    + by apply (Hd _ Hbad).
    + by apply (added_tags_not_swept (Dom.tag_of n)).
Qed.

Lemma library_defaults_clear :
  forall t, t ∈ Spec.swept_tags ->
            t ∉ Sanitize.defaults_allowedTags Examples.library.
Proof.
  apply Forall_forall. apply (bool_decide_unpack _). by vm_compute.
Qed.

Lemma no_swept_tag_in_page_witness :
  Examples.real_text ∈
    Dom.elements
      (Examples.page_of
         (Server.handle Examples.article_world (Examples.post Examples.site)))
  /\ Dom.tag_of Examples.real_text ∉ Spec.swept_tags.
Proof.
  assert (Examples.real_text ∈
    Dom.elements
      (Examples.page_of
         (Server.handle Examples.article_world (Examples.post Examples.site))))
    as Hin.
  { apply list_elem_of_In. vm_compute. tauto. }
  split; [exact Hin|].
  eapply (proj2 (no_swept_tag_in_page Examples.article_world)
            library_defaults_clear (Examples.post Examples.site)).
  - vm_compute. reflexivity.
  - exact Hin.
Defined.









(** C5, as the code has it: a rejected fetch (network error, timeout) is
    caught by the handler's [catch] and answered with status 500 and the
    body [{"error":"Server error"}]; status 502 is sent exactly when the
    target is valid and upstream answers with a status outside 200-299,
    and always with the body [{"error":"Failed to fetch target"}]. *)
Theorem fetch_rejection_500 (w : World) (req : Request) :
  (forall t : string,
     target req = Some t ->
     Regex.test Server.url_pattern t = true ->
     fetch w (Outbound t Server.user_agent 15000%N) = FetchRejected ->
     Server.handle w req =
     ([Outbound t Server.user_agent 15000%N], Json 500 "Server error")) /\
  (status_of (Server.handle w req).2 = 502 <->
   exists (t : string) (s : nat),
     target req = Some t /\
     Regex.test Server.url_pattern t = true /\
     status_received (fetch w (Outbound t Server.user_agent 15000%N)) =
       Some s /\
     ~ (200 <= s <= 299)) /\
  (status_of (Server.handle w req).2 = 502 ->
   (Server.handle w req).2 = Json 502 "Failed to fetch target").
Proof.
  destruct req as [[t|]].
  - destruct (Regex.test Server.url_pattern t) eqn:Ht.
    + rewrite handle_valid by done. split; [|split].
      * intros t' [= <-] _ Hf. by rewrite Hf.
      * cbn [snd]. split.
        -- intros H. exists t.
           destruct (fetch w _) as [|s raw|s] eqn:Ef; [done|..];
             (destruct (Server.ok s) eqn:Eo; [done|]);
             exists s; rewrite <- ok_range, Eo; done.
        -- intros [t' [s [[= <-] [_ [Hs Hr]]]]].
           rewrite <- ok_range in Hr.
           destruct (fetch w _) as [|s' raw|s']; [done|..];
             injection Hs as ->; by destruct (Server.ok s).
      * cbn [snd].
        destruct (fetch w _) as [|s raw|s]; [done|..];
          by destruct (Server.ok s).
    + rewrite handle_invalid by done. split; [|split].
      * intros t' [= <-]. congruence.
      * cbn [snd status_of]. split; [done|].
        intros [t' [s [[= <-] [Hv _]]]]. congruence.
      * done.
  - rewrite handle_invalid by done. split; [done|].
    cbn [snd status_of]. split; [|done].
    split; [done|]. by intros [t [s [? _]]].
Qed.

Lemma fetch_rejection_500_witness :
  Server.handle (Examples.world Examples.unreachable Examples.no_article)
    (Examples.post "http://example.com/article") =
  ([Outbound "http://example.com/article" Server.user_agent 15000%N],
   Json 500 "Server error").
Proof.
  apply (proj1 (fetch_rejection_500 _ _) "http://example.com/article");
    reflexivity.
Defined.

(** C5 fails as stated: on an unreachable network the client gets 500, not
    the 502 that a 404 from upstream produces. *)
Lemma fetch_rejection_not_502 :
  status_of
    (Server.handle (Examples.world Examples.unreachable Examples.no_article)
       (Examples.post "http://example.com/article")).2 = 500 /\
  status_of
    (Server.handle
       (Examples.world (Examples.serving 404 []) Examples.no_article)
       (Examples.post "http://example.com/article")).2 = 502.
Proof. split; reflexivity. Qed.

(** C6 fails in the code.  When the extraction returns an article with
    non-empty content, the content of the page is the article and never the
    fallback, and the [main] element of the page holds what the sanitizer
    makes of the string [<h1>title</h1>], a line break and the content.
    But the title is written into that string as it is.  For a page with
    the title "<script> tag explained" the string reads as a heading with
    a script element that takes in everything after it: the page sent
    has an empty heading, without the title and without the extracted
    content. *)
Theorem article_heading_unescaped :
  (forall (w : World) (t : string) (status : nat) (raw : html)
          (doc' : document) (title : option string) (c0 : node) (c : html)
          (tr : list outbound) (ct : string) (page : html),
     fetch w (Outbound t Server.user_agent 15000%N) = FetchResponse status raw ->
     Readability_parse w (Document t (Server.cleaned raw)) =
       (doc', ParseArticle title (Some (c0 :: c))) ->
     Server.handle w {| target := Some t |} = (tr, Page ct page) ->
     let h := heading_template w (default "" title) (c0 :: c) in
     Server.select_content w t raw (Server.cleaned raw) =
       Server.FromArticle h /\
     Server.el "main" [] (Server.clean w h) ∈ Dom.elements page) /\
  (let w := Examples.titled_world in
   Readability_parse w
     (Document Examples.site (Server.cleaned Examples.explained_page)) =
     (Document Examples.site (Server.cleaned Examples.explained_page),
      ParseArticle (Some "<script> tag explained")
        (Some [Examples.real_text])) /\
   Server.handle w (Examples.post Examples.site) =
     ([Outbound Examples.site Server.user_agent 15000%N],
      Page "text/html; charset=utf-8"
        (Server.wrapper w Examples.site [Server.el "h1" [] []])) /\
   Dom.uid_of Examples.real_text ∉
     Dom.uids (Examples.page_of (Server.handle w (Examples.post Examples.site)))).
Proof.
  split.
  - intros w t status raw doc' title c0 c tr ct page Hf Hr Hh h.
    assert (Server.select_content w t raw (Server.cleaned raw) =
            Server.FromArticle h) as Hsel.
    { unfold Server.select_content. rewrite Hr. simpl.
      by rewrite or_empty_id. }
    split; [exact Hsel|].
    destruct (handle_page w _ tr ct page Hh)
      as [t' [st [raw' [Ht [_ [Hf' [_ ->]]]]]]].
    cbn [target] in Ht. injection Ht as <-.
    rewrite Hf in Hf'. injection Hf' as <- <-.
    rewrite Hsel. apply wrapper_main.
  - split; [|split].
    + vm_compute. reflexivity.
    + vm_compute. reflexivity.
    + apply (bool_decide_unpack _). by vm_compute.
Qed.




(** C8: a request whose target is missing, or is a string that the pattern
    [/^https?:\/\//i] does not match, is answered with status 400 and the
    body [{"error":"Invalid URL"}], and the handler makes no outbound
    request. *)
Theorem invalid_target_rejected (w : World) (req : Request) :
  (target req = None \/
   exists t, target req = Some t /\ Regex.test Server.url_pattern t = false) ->
  Server.handle w req = ([], Json 400 "Invalid URL").
Proof.
  intros H. apply handle_invalid.
  destruct H as [->|[t [-> Ht]]]; done.
Qed.

Lemma invalid_target_rejected_witness :
  Server.handle (Examples.world Examples.unreachable Examples.no_article)
    (Examples.post "not-a-url") = ([], Json 400 "Invalid URL").
Proof.
  apply invalid_target_rejected. right. exists "not-a-url".
  split; reflexivity.
Defined.



(** C10: an element whose [className] is not a string (an SVG element) is
    checked against its [id] alone: the sweep takes it for an ad exactly
    when its [id] contains one of the words, whatever its [class] attribute
    says; in a document with distinct node identities, and unless an
    ancestor is removed, it stays in the document exactly when its [id]
    contains none of them. *)
Theorem animated_class_checked_by_id (e : node) :
  (forall s, Dom.className e <> ClassString s) ->
  (Server.looks_like_ad e = true <-> Spec.has_ad_word (Dom.id e)) /\
  (forall f : list node,
     NoDup (Dom.uids f) -> e ∈ Dom.elements f ->
     (forall a, a ∈ Dom.elements f -> a <> e -> e ∈ Dom.subtree a ->
                Server.looks_like_ad a = false) ->
     Dom.uid_of e ∈ Dom.uids (Server.heuristic_sweep f) <->
     ~ Spec.has_ad_word (Dom.id e)).
Proof.
  intros Hc.
  assert (Server.looks_like_ad e = true <-> Spec.has_ad_word (Dom.id e)) as Hl.
  { rewrite looks_like_ad_words. rewrite cls_of_animated.
    - split; [|by left]. intros [H|H]; [done|]. by apply has_ad_word_empty in H.
    - unfold Dom.className in Hc. destruct (Dom.ns_of e); [|done|];
        by destruct (Hc (Dom.reflect "class" e)). }
  split; [exact Hl|]. intros f ND He Hanc.
  rewrite (heuristic_sweep_keeps f e ND He Hanc), <- Hl.
  by destruct (Server.looks_like_ad e).
Qed.

Lemma svg_page_NoDup : NoDup (Dom.uids Examples.svg_page).
Proof. apply (bool_decide_unpack _). by vm_compute. Qed.

Lemma animated_class_checked_by_id_witness :
  Dom.uid_of Examples.svg_ad ∈
    Dom.uids (Server.heuristic_sweep Examples.svg_page).
Proof.
  assert (forall s, Dom.className Examples.svg_ad <> ClassString s) as Hc
    by (intros s; discriminate).
  destruct (animated_class_checked_by_id Examples.svg_ad Hc) as [_ H].
  apply (H Examples.svg_page).
  - exact svg_page_NoDup.
  - apply list_elem_of_In. vm_compute. tauto.
  - intros a Ha _ _. apply list_elem_of_In in Ha. vm_compute in Ha.
    repeat (destruct Ha as [<-|Ha]; [reflexivity|]). destruct Ha.
  - intros Hw. apply (has_ad_word_empty Hw).
Defined.

(** * Further properties of the handler *)

Section StatusFacts.
Import Regex Server.

(** The five ways a request ends. *)
Lemma handle_cases w req :
  ((target req = None \/
    exists t, target req = Some t /\ test url_pattern t = false) /\
   handle w req = ([], Json 400 "Invalid URL")) \/
  (exists t, target req = Some t /\ test url_pattern t = true /\
     fetch w (Outbound t user_agent 15000%N) = FetchRejected /\
     handle w req = ([Outbound t user_agent 15000%N], Json 500 "Server error")) \/
  (exists t s, target req = Some t /\ test url_pattern t = true /\
     status_received (fetch w (Outbound t user_agent 15000%N)) = Some s /\
     ~ (200 <= s <= 299) /\
     handle w req =
       ([Outbound t user_agent 15000%N], Json 502 "Failed to fetch target")) \/
  (exists t s, target req = Some t /\ test url_pattern t = true /\
     fetch w (Outbound t user_agent 15000%N) = FetchUnreadable s /\
     200 <= s <= 299 /\
     handle w req = ([Outbound t user_agent 15000%N], Json 500 "Server error")) \/
  (exists t s raw, target req = Some t /\ test url_pattern t = true /\
     fetch w (Outbound t user_agent 15000%N) = FetchResponse s raw /\
     200 <= s <= 299 /\
     handle w req =
       ([Outbound t user_agent 15000%N],
        Page "text/html; charset=utf-8"
          (wrapper w t
             (clean w (content_html (select_content w t raw (cleaned raw))))))).
Proof.
  destruct req as [[t|]].
  2:{ left. split; [by left|]. by apply handle_invalid. }
  destruct (test url_pattern t) eqn:Ht.
  2:{ left. split; [right; by exists t|]. by apply handle_invalid. }
  right. rewrite handle_valid by done.
  destruct (fetch w _) as [|s raw|s] eqn:Ef.
  - left. by exists t.
  - right. destruct (ok s) eqn:Eo.
    + right. right. exists t, s, raw. repeat split; try done; by apply ok_range.
    + left. exists t, s. split; [done|]. split; [done|].
      split; [first [done|by rewrite Ef]|]. split; [|done].
      intros H. apply ok_range in H. congruence.
  - right. destruct (ok s) eqn:Eo.
    + right. left. exists t, s. repeat split; try done; by apply ok_range.
    + left. exists t, s. split; [done|]. split; [done|].
      split; [first [done|by rewrite Ef]|]. split; [|done].
      intros H. apply ok_range in H. congruence.
Qed.

End StatusFacts.

(** X1: the statuses of the response.  400 is sent exactly when the target
    is missing or fails the pattern, and 502 exactly when the target is
    valid and upstream answers with a status outside 200-299.  A rejected
    fetch, and a body that cannot be read after a status in 200-299, are
    answered with 500.  A page (status 200) is sent only for a valid
    target that upstream answered with a status in 200-299 and a body that
    could be read.  No other status is sent. *)
Theorem response_status (w : World) (req : Request) :
  let status := status_of (Server.handle w req).2 in
  let fetched t := fetch w (Outbound t Server.user_agent 15000%N) in
  (status = 400 <->
     target req = None \/
     exists t, target req = Some t /\ Regex.test Server.url_pattern t = false) /\
  (status = 502 <->
     exists t s, target req = Some t /\
       Regex.test Server.url_pattern t = true /\
       status_received (fetched t) = Some s /\ ~ (200 <= s <= 299)) /\
  (forall t, target req = Some t ->
     Regex.test Server.url_pattern t = true ->
     fetched t = FetchRejected -> status = 500) /\
  (forall t s, target req = Some t ->
     Regex.test Server.url_pattern t = true ->
     fetched t = FetchUnreadable s -> 200 <= s <= 299 -> status = 500) /\
  (status = 200 ->
     exists t s raw, target req = Some t /\
       Regex.test Server.url_pattern t = true /\
       fetched t = FetchResponse s raw /\ 200 <= s <= 299) /\
  (status = 200 \/ status = 400 \/ status = 500 \/ status = 502).
Proof.
  cbn zeta.
  destruct (handle_cases w req)
    as [[Hc H]|[[t [E [Ht [Ef H]]]]|[[t [s [E [Ht [Ef [Hs H]]]]]]
       |[[t [s [E [Ht [Ef [Hs H]]]]]]|[t [s [raw [E [Ht [Ef [Hs H]]]]]]]]]]];
    rewrite H; cbn [snd status_of]; clear H;
    repeat split;
    try (intros Hx; try discriminate Hx; destruct_or?;
         repeat match goal with
                | Hp : exists _, _ |- _ => destruct Hp
                end;
         destruct_and?; simplify_eq; try done; try congruence;
         try match goal with
             | Ha : fetch ?w ?r = _, Hb : context [fetch ?w ?r] |- _ =>
                 rewrite Ha in Hb; simpl in Hb; simplify_eq; exfalso; lia
             end;
         eauto 10);
    try (intros; simplify_eq; try done; try congruence;
         try match goal with
             | Ha : fetch ?w ?r = _, Hb : context [fetch ?w ?r] |- _ =>
                 rewrite Ha in Hb; simpl in Hb; simplify_eq; exfalso; lia
             end);
    auto 10.
Qed.

(** X2: the handler makes at most one outbound request and never retries;
    it makes one exactly when the target passes the pattern, and that
    request goes to the target itself, with the fixed user agent and a
    timeout of 15000 ms. *)
Theorem outbound_requests (w : World) (req : Request) :
  let made := (Server.handle w req).1 in
  length made <= 1 /\
  (length made = 1 <->
     exists t, target req = Some t /\ Regex.test Server.url_pattern t = true) /\
  (forall rq, rq ∈ made ->
     target req = Some (out_url rq) /\
     out_user_agent rq = "AdFreeProxy/1.0 (+https://example.com)" /\
     out_timeout_ms rq = 15000%N).
Proof.
  cbn zeta.
  destruct (handle_cases w req)
    as [[Hc H]|[[t [E [Ht [Ef H]]]]|[[t [s [E [Ht [Ef [Hs H]]]]]]
       |[[t [s [E [Ht [Ef [Hs H]]]]]]|[t [s [raw [E [Ht [Ef [Hs H]]]]]]]]]]];
    rewrite H; cbn [fst length]; clear H.
  - split; [lia|]. split.
    + split; [intros Hx; discriminate Hx|].
      intros [t [E Ht]]. destruct Hc as [Hc|[t' [E' Ht']]]; congruence.
    + intros rq Hrq. by apply elem_of_nil in Hrq.
  - split; [lia|]. split; [split; [by exists t|done]|].
    intros rq Hrq. apply list_elem_of_singleton in Hrq. by subst rq.
  - split; [lia|]. split; [split; [by exists t|done]|].
    intros rq Hrq. apply list_elem_of_singleton in Hrq. by subst rq.
  - split; [lia|]. split; [split; [by exists t|done]|].
    intros rq Hrq. apply list_elem_of_singleton in Hrq. by subst rq.
  - split; [lia|]. split; [split; [by exists t|done]|].
    intros rq Hrq. apply list_elem_of_singleton in Hrq. by subst rq.
Qed.

(** X3: the request is rejected with 400 [{"error":"Invalid URL"}], without
    any outbound request, exactly when the target is missing or starts with
    neither [http://] nor [https://] (in any case of the letters); nothing
    beyond this prefix is checked. *)
Theorem rejected_iff_not_http (w : World) (req : Request) :
  Server.handle w req = ([], Json 400 "Invalid URL") <->
  target req = None \/
  exists t, target req = Some t /\
    ~ (Spec.starts_with_ci "http://" t \/ Spec.starts_with_ci "https://" t).
Proof.
  unfold Spec.starts_with_ci. destruct req as [[t|]].
  2:{ rewrite handle_invalid by done. split; [by left|done]. }
  cbn [target]. destruct (Regex.test Server.url_pattern t) eqn:Ht.
  - rewrite handle_valid by done. split; [intros H; discriminate H|].
    intros [H|[t' [E H]]]; [discriminate H|]. injection E as <-.
    destruct H. by apply test_url_pattern.
  - rewrite handle_invalid by done. split; [|done]. intros _. right.
    exists t. split; [done|]. intros H.
    apply test_url_pattern in H. congruence.
Qed.

(** ** What the sweeps leave *)
Section CleaningFacts.
Import Dom Spec Server.

Lemma matches_shell sel n n' :
  shell n = shell n' -> matches sel n = matches sel n'.
Proof.
  unfold shell. intros E. injection E as _ _ Et Ea.
  destruct sel as [|t|t eqs]; simpl; [done|by rewrite Et|].
  unfold getAttribute. by rewrite Et, Ea.
Qed.

Lemma unwanted_shell n n' : shell n = shell n' -> unwanted n = unwanted n'.
Proof.
  intros E. unfold unwanted. rewrite (looks_like_ad_shell n n' E). f_equal.
  induction structural_selectors as [|sel sels IH]; simpl; [done|].
  by rewrite (matches_shell sel n n' E), IH.
Qed.

Section Step.
Variable P : node -> bool.
Hypothesis P_shell : forall n n', shell n = shell n' -> P n = P n'.

Lemma prune_forest_keeps_clear q f :
  (forall n, n ∈ elements f -> P n = false) ->
  forall n', n' ∈ elements (prune_forest q f) -> P n' = false.
Proof.
  intros H n' Hn'. destruct (prune_forest_shell q f n' Hn') as [n [H1 [H2 _]]].
  rewrite (P_shell n' n H2). by apply H.
Qed.

(** Removing the elements of a forest that satisfy [P] leaves none that
    satisfies it. *)
Lemma prune_selected_clear f n' :
  n' ∈ elements
         (prune_forest
            (fun v => bool_decide
               (v ∈ map uid_of (filter (fun n => P n = true) (elements f))))
            f) ->
  P n' = false.
Proof.
  intros Hn'. destruct (prune_forest_shell _ f n' Hn') as [n [H1 [H2 H3]]].
  rewrite (P_shell n' n H2). apply bool_decide_eq_false in H3.
  destruct (P n) eqn:E; [|done]. destruct H3.
  apply list_elem_of_fmap_2. by apply list_elem_of_filter.
Qed.

Lemma filter_none (l : list node) :
  (forall n, n ∈ l -> P n = false) -> filter (fun n => P n = true) l = [].
Proof.
  induction l as [|x l IH]; intros H; [done|].
  rewrite filter_cons. rewrite decide_False.
  - apply IH. intros n Hn. apply H. apply elem_of_cons. by right.
  - rewrite (H x); [done|]. apply elem_of_cons. by left.
Qed.

Lemma fold_remove_none (l : list node) (f : list node) :
  (forall n, n ∈ l -> P n = false) ->
  fold_left (fun f n => if P n then remove (uid_of n) f else f) l f = f.
Proof.
  intros H. rewrite fold_remove, filter_none by done.
  by apply prune_forest_none.
Qed.

End Step.

Lemma remove_each_query sel f :
  remove_each (querySelectorAll sel f) f =
  prune_forest
    (fun v => bool_decide
       (v ∈ map uid_of (filter (fun n => matches sel n = true) (elements f))))
    f.
Proof. apply remove_each_prune. Qed.

Lemma sweep_selectors_clear sels f sel :
  sel ∈ sels \/ (forall n, n ∈ elements f -> matches sel n = false) ->
  forall n', n' ∈ elements
    (fold_left (fun f sel => remove_each (querySelectorAll sel f) f) sels f) ->
  matches sel n' = false.
Proof.
  revert f. induction sels as [|s sels IH]; intros f H; simpl.
  - destruct H as [H|H]; [by apply elem_of_nil in H|done].
  - apply IH. rewrite remove_each_query. destruct H as [H|H].
    + apply elem_of_cons in H. destruct H as [->|H]; [|by left].
      right. intros n. apply prune_selected_clear. apply matches_shell.
    + right. apply prune_forest_keeps_clear; [apply matches_shell|done].
Qed.

Lemma unwanted_false n :
  unwanted n = false <->
  (forall sel, sel ∈ structural_selectors -> matches sel n = false) /\
  looks_like_ad n = false.
Proof.
  unfold unwanted. rewrite orb_false_iff.
  assert (existsb (fun sel => matches sel n) structural_selectors = false <->
          forall sel, sel ∈ structural_selectors -> matches sel n = false) as ->;
    [|done].
  induction structural_selectors as [|s sels IH]; simpl.
  - split; [|done]. intros _ sel H. by apply elem_of_nil in H.
  - rewrite orb_false_iff, IH. split.
    + intros [H1 H2] sel Hs. apply elem_of_cons in Hs.
      destruct Hs as [->|Hs]; auto.
    + intros H. split; [apply H; apply elem_of_cons; by left|].
      intros sel Hs. apply H. apply elem_of_cons. by right.
Qed.

(** Nothing the sweeps look for is left in the cleaned document. *)
Lemma cleaned_no_unwanted raw n :
  n ∈ elements (cleaned raw) -> unwanted n = false.
Proof.
  unfold cleaned. rewrite heuristic_sweep_prune. intros Hn.
  apply unwanted_false. split.
  - intros sel Hsel. revert n Hn.
    apply prune_forest_keeps_clear; [apply matches_shell|].
    apply sweep_selectors_clear. by left.
  - by apply (prune_selected_clear looks_like_ad looks_like_ad_shell
                (structural_sweep raw)).
Qed.

Lemma fold_selectors_none sels f :
  (forall sel n, sel ∈ sels -> n ∈ elements f -> matches sel n = false) ->
  fold_left (fun f sel => remove_each (querySelectorAll sel f) f) sels f = f.
Proof.
  induction sels as [|s sels IH]; intros H; simpl; [done|].
  assert (remove_each (querySelectorAll s f) f = f) as ->.
  { rewrite remove_each_query, (filter_none (matches s)).
    - by apply prune_forest_none.
    - intros n Hn. apply H; [apply elem_of_cons; by left|done]. }
  apply IH. intros sel n Hs Hn. apply H; [|done]. apply elem_of_cons. by right.
Qed.

(** A document with nothing the sweeps look for is left as it is. *)
Lemma cleaned_fixpoint f :
  (forall n, n ∈ elements f -> unwanted n = false) -> cleaned f = f.
Proof.
  intros H. unfold cleaned, structural_sweep.
  rewrite fold_selectors_none.
  - unfold heuristic_sweep, querySelectorAll. apply fold_remove_none.
    intros n Hn. apply list_elem_of_filter in Hn. destruct Hn as [_ Hn].
    by destruct (proj1 (unwanted_false n) (H n Hn)).
  - intros sel n Hs Hn.
    destruct (proj1 (unwanted_false n) (H n Hn)) as [H1 _]. by apply H1.
Qed.

(** The identities a pruning leaves are a subsequence of those of the
    forest. *)
Lemma uids_prune_sublist q f : uids (prune_forest q f) `sublist_of` uids f.
Proof.
  assert (forall c, map uid_of (elements (prune q c)) `sublist_of`
                    map uid_of (subtree c)) as Hnode.
  { induction c as [v k t a cs IH|s] using node_forall_ind.
    - destruct (q v) eqn:E.
      + simpl. rewrite E. apply sublist_nil_l.
      + rewrite elements_prune_node by done. simpl. apply sublist_skip.
        unfold prune_forest, elements. rewrite flat_map_flat_map.
        induction IH as [|c cs Hc _ IH']; simpl; [done|].
        rewrite !map_app. by apply sublist_app.
    - simpl. by unfold elements. }
  unfold uids, prune_forest, elements. rewrite flat_map_flat_map.
  induction f as [|c f IH]; simpl; [done|].
  rewrite !map_app. apply sublist_app; [apply Hnode|done].
Qed.

End CleaningFacts.

(** ** The cleaned document, exactly *)
Section ExactFacts.
Import Dom Spec Server.
Variable raw : list node.
Hypothesis raw_NoDup : NoDup (uids raw).

(** [g] is what is left of [raw] when the elements that satisfy [U], and
    only subtrees of such elements, are taken out. *)
Local Abbreviation taken_out g U :=
  (exists q : nat -> bool, g = prune_forest q raw /\
     (forall a, a ∈ elements raw -> q (uid_of a) = true -> U a = true) /\
     (forall e, e ∈ elements raw -> U e = true ->
        exists a, a ∈ elements raw /\ q (uid_of a) = true /\ e ∈ subtree a)).

Lemma taken_out_ext g (U U' : node -> bool) :
  (forall a, U a = U' a) -> taken_out g U -> taken_out g U'.
Proof.
  intros E [q [Hg [HA HB]]]. exists q. split; [done|]. split.
  - intros a Ha Hq. rewrite <- E. by apply HA.
  - intros e He HU. rewrite <- E in HU. by apply HB.
Qed.

Lemma taken_out_step (P : node -> bool) g (U : node -> bool) :
  (forall n n', shell n = shell n' -> P n = P n') ->
  taken_out g U ->
  taken_out
    (prune_forest
       (fun v => bool_decide
          (v ∈ map uid_of (filter (fun n => P n = true) (elements g)))) g)
    (fun a => U a || P a).
Proof.
  intros P_shell [q [-> [HA HB]]].
  set (qP := fun v => bool_decide
    (v ∈ map uid_of
           (filter (fun n => P n = true) (elements (prune_forest q raw))))).
  exists (fun v => q v || qP v). split; [apply prune_forest_twice|]. split.
  - intros a Ha Hq. apply orb_true_iff in Hq. apply orb_true_iff.
    destruct Hq as [Hq|Hq]; [left; by apply HA|right].
    apply bool_decide_eq_true, list_elem_of_fmap in Hq.
    destruct Hq as [b [E Hb]]. apply list_elem_of_filter in Hb.
    destruct Hb as [Pb Hb].
    destruct (prune_forest_shell q raw b Hb) as [b0 [H1 [H2 _]]].
    assert (uid_of a = uid_of b0) as E0
      by (rewrite E; by injection H2).
    rewrite (uid_inj raw a b0 raw_NoDup Ha H1 E0).
    by rewrite <- (P_shell b b0 H2).
  - intros e He HU. apply orb_true_iff in HU. destruct HU as [HU|HP].
    + destruct (HB e He HU) as [a [H1 [H2 H3]]]. exists a.
      split; [done|]. split; [by rewrite H2|done].
    + destruct (prune_forest_survives q raw e He)
        as [[a [H1 [H2 H3]]]|[e' [H1 H2]]].
      * exists a. split; [done|]. split; [by rewrite H2|done].
      * exists e. split; [done|]. split.
        -- apply orb_true_iff. right. apply bool_decide_eq_true.
           assert (uid_of e = uid_of e') as -> by (by injection H2).
           apply list_elem_of_fmap_2, list_elem_of_filter. split; [|done].
           by rewrite (P_shell e' e H2).
        -- by apply subtree_self, (elements_element raw).
Qed.

Lemma taken_out_selectors sels g (U : node -> bool) :
  taken_out g U ->
  taken_out
    (fold_left (fun f sel => remove_each (querySelectorAll sel f) f) sels g)
    (fun a => U a || existsb (fun sel => matches sel a) sels).
Proof.
  revert g U. induction sels as [|s sels IH]; intros g U H; simpl.
  - apply (taken_out_ext g U); [|done]. intros a. by rewrite orb_false_r.
  - rewrite remove_each_query.
    apply (taken_out_ext _
             (fun a => (U a || matches s a) ||
                       existsb (fun sel => matches sel a) sels)).
    + intros a. by rewrite orb_assoc.
    + apply IH. apply taken_out_step; [apply matches_shell|done].
Qed.

Lemma cleaned_taken_out : taken_out (cleaned raw) unwanted.
Proof.
  unfold cleaned. rewrite heuristic_sweep_prune.
  apply (taken_out_ext _
           (fun a => (false || existsb (fun sel => matches sel a)
                                  structural_selectors) ||
                     looks_like_ad a)).
  { intros a. reflexivity. }
  apply taken_out_step; [apply looks_like_ad_shell|].
  apply (taken_out_selectors structural_selectors raw (fun _ => false)).
  exists (fun _ => false). split; [symmetry; by apply prune_forest_none|].
  split; [done|]. intros e _ H. discriminate H.
Qed.

(** An element of the fetched document is in the cleaned document exactly
    when neither it nor any of its ancestors is something the sweeps look
    for. *)
Lemma cleaned_keeps e :
  e ∈ elements raw ->
  uid_of e ∈ uids (cleaned raw) <->
  forall a, a ∈ elements raw -> e ∈ subtree a -> unwanted a = false.
Proof.
  intros He. destruct cleaned_taken_out as [q [-> [HA HB]]]. split.
  - intros Hin a Ha Hsub. destruct (unwanted a) eqn:Eu; [|done]. exfalso.
    destruct (HB a Ha Eu) as [c [H1 [H2 H3]]].
    apply (prune_forest_absent q raw raw_NoDup c e H1 H2); [|done].
    eauto using subtree_trans.
  - intros Hanc.
    destruct (prune_forest_survives q raw e He)
      as [[a [H1 [H2 H3]]]|[e' [H1 H2]]].
    + pose proof (HA a H1 H2) as Hu. rewrite (Hanc a H1 H3) in Hu.
      discriminate Hu.
    + assert (uid_of e = uid_of e') as -> by (by injection H2).
      by apply elem_of_uids.
Qed.

End ExactFacts.

(** X4: after the two sweeps the document has no element that matches one
    of the six selectors of the structural sweep (the preloaded script link
    included) and none that looks like an ad, so that cleaning a cleaned
    document changes nothing. *)
Theorem cleaning_idempotent (raw : html) :
  (forall n, n ∈ Dom.elements (Server.cleaned raw) -> Spec.unwanted n = false) /\
  Server.cleaned (Server.cleaned raw) = Server.cleaned raw.
Proof.
  split; [apply cleaned_no_unwanted|].
  apply cleaned_fixpoint, cleaned_no_unwanted.
Qed.

Lemma cleaning_idempotent_witness :
  Spec.unwanted Examples.real_text = false.
Proof.
  apply (proj1 (cleaning_idempotent Examples.article_page)).
  apply list_elem_of_In. vm_compute. tauto.
Defined.

(** X5: the sweeps only take elements away.  The identities left are a
    subsequence of those of the fetched document (nothing is added,
    duplicated or reordered), and every element left has the namespace,
    tag and attributes it was fetched with. *)
Theorem cleaning_only_removes (raw : html) :
  Dom.uids (Server.cleaned raw) `sublist_of` Dom.uids raw /\
  forall n', n' ∈ Dom.elements (Server.cleaned raw) ->
    exists n, n ∈ Dom.elements raw /\ Spec.shell n' = Spec.shell n.
Proof.
  destruct (cleaned_prune raw) as [q [-> _]]. split.
  - apply uids_prune_sublist.
  - intros n' Hn'. destruct (prune_forest_shell q raw n' Hn') as [n [H1 [H2 _]]].
    eauto.
Qed.

Lemma cleaning_only_removes_witness :
  exists n, n ∈ Dom.elements Examples.article_page /\
            Spec.shell Examples.real_text = Spec.shell n.
Proof.
  apply (proj2 (cleaning_only_removes Examples.article_page)).
  apply list_elem_of_In. vm_compute. tauto.
Defined.

(** X6: in a fetched document with distinct node identities, an element is
    still in the document after the two sweeps exactly when neither the
    element itself nor any of its ancestors matches a selector of the
    structural sweep or looks like an ad. *)
Theorem cleaned_exactly (raw : html) (e : node) :
  NoDup (Dom.uids raw) ->
  e ∈ Dom.elements raw ->
  Dom.uid_of e ∈ Dom.uids (Server.cleaned raw) <->
  forall a, a ∈ Dom.elements raw -> e ∈ Dom.subtree a ->
            Spec.unwanted a = false.
Proof. intros ND He. by apply cleaned_keeps. Qed.

Lemma cleaned_exactly_witness :
  Dom.uid_of Examples.real_text ∈
    Dom.uids (Server.cleaned Examples.article_page).
Proof.
  apply (cleaned_exactly Examples.article_page Examples.real_text).
  - exact article_page_NoDup.
  - apply list_elem_of_In. vm_compute. tauto.
  - intros a Ha Hsub. apply list_elem_of_In in Ha. vm_compute in Ha.
    repeat (destruct Ha as [<-|Ha];
            [first [ reflexivity
                   | exfalso; apply list_elem_of_In in Hsub;
                     vm_compute in Hsub; intuition discriminate ]|]).
    destruct Ha.
Defined.

(** X7: the order in which the heuristic sweep visits the elements does not
    matter: visiting the elements of the document in any order, detached
    ones included, gives the document the sweep gives. *)
Theorem heuristic_sweep_any_order (f l : list node) :
  l ≡ₚ Dom.elements f ->
  fold_left
    (fun f el => if Server.looks_like_ad el then Dom.remove (Dom.uid_of el) f
                 else f) l f =
  Server.heuristic_sweep f.
Proof.
  intros Hl. rewrite heuristic_sweep_prune, fold_remove.
  apply prune_forest_ext. intros v. apply bool_decide_ext.
  rewrite !list_elem_of_fmap. split.
  - intros [n [E Hn]]. exists n. split; [done|].
    apply list_elem_of_filter in Hn. apply list_elem_of_filter.
    by rewrite <- Hl.
  - intros [n [E Hn]]. exists n. split; [done|].
    apply list_elem_of_filter in Hn. apply list_elem_of_filter.
    by rewrite Hl.
Qed.

Lemma heuristic_sweep_any_order_witness :
  fold_left
    (fun f el => if Server.looks_like_ad el then Dom.remove (Dom.uid_of el) f
                 else f)
    (reverse (Dom.elements Examples.article_page)) Examples.article_page =
  Server.heuristic_sweep Examples.article_page.
Proof.
  apply heuristic_sweep_any_order. apply reverse_Permutation.
Defined.

(** X8: the five patterns decide as four substrings do: an element is
    taken for an ad exactly when its [id], or its [className] when that is
    a string, contains "ad", "banner", "sponsored" or "promoted" in any
    case; the pattern [/advert/i] and the optional [s] never change the
    decision. *)
Theorem ad_decision_words (e : node) :
  Server.looks_like_ad e = true <->
  exists w, w ∈ Spec.deciding_words /\
    (Regex.contains_ci w (Dom.id e) \/ Regex.contains_ci w (Server.cls_of e)).
Proof.
  assert (forall s, Spec.has_ad_word s <->
            exists w, w ∈ Spec.deciding_words /\ Regex.contains_ci w s) as Hw.
  { intros s. unfold Spec.has_ad_word, Spec.ad_words, Spec.deciding_words.
    split; intros [w [Hin Hc]].
    - repeat (apply elem_of_cons in Hin as [->|Hin]).
      + exists "ad". split; [|done]. apply elem_of_cons. by left.
      + exists "ad". split; [apply elem_of_cons; by left|].
        by apply (contains_ci_prefix "ad" "s").
      + exists "ad". split; [apply elem_of_cons; by left|].
        by apply (contains_ci_prefix "ad" "vert").
      + exists "banner". split; [|done].
        repeat first [apply list_elem_of_here|apply list_elem_of_further].
      + exists "sponsored". split; [|done].
        repeat first [apply list_elem_of_here|apply list_elem_of_further].
      + exists "promoted". split; [|done].
        repeat first [apply list_elem_of_here|apply list_elem_of_further].
      + by apply elem_of_nil in Hin.
    - exists w. split; [|done].
      repeat (apply elem_of_cons in Hin as [->|Hin];
              [repeat first [apply list_elem_of_here|apply list_elem_of_further]|]).
      by apply elem_of_nil in Hin. }
  rewrite looks_like_ad_words, !Hw. split.
  - intros [[w [H1 H2]]|[w [H1 H2]]]; exists w; auto.
  - intros [w [H1 [H2|H2]]]; [left|right]; by exists w.
Qed.

(** ** [encodeURI] and the link to the original page *)
Section UriFacts.
Import Regex Dom Spec Server.

Lemma hex_digit_unescaped k : mem_char (hex_digit k) uri_unescaped = true.
Proof.
  unfold hex_digit.
  do 16 (destruct k as [|k]; [reflexivity|]). reflexivity.
Qed.

Lemma encodeURI_chars s : all_chars uri_output (encodeURI s) = true.
Proof.
  induction s as [|c s IH]; [done|]. cbn [encodeURI].
  destruct (mem_char c uri_unescaped) eqn:E; cbn [all_chars].
  - unfold uri_output at 1. by rewrite E, IH.
  - rewrite IH. unfold uri_output. rewrite !hex_digit_unescaped. reflexivity.
Qed.

Lemma encodeURI_unescaped s :
  all_chars (fun c => mem_char c uri_unescaped) s = true -> encodeURI s = s.
Proof.
  induction s as [|c s IH]; [done|]. cbn [all_chars encodeURI].
  intros H. apply andb_true_iff in H. destruct H as [Hc Hs].
  by rewrite Hc, IH.
Qed.

(** The letter of an atom. *)
Local Abbreviation letter a :=
  (match a with Chr c => c | Opt c => c end).

Lemma url_letter_unescaped c x :
  c ∈ ["h"; "t"; "p"; "s"; ":"; "/"]%char ->
  ci_eqb c x = true -> mem_char x uri_unescaped = true.
Proof.
  intros Hc. repeat (apply elem_of_cons in Hc as [->|Hc]);
    try (by apply elem_of_nil in Hc);
    destruct x as [[] [] [] [] [] [] [] []]; vm_compute; congruence.
Qed.

Lemma url_letter_not_percent c :
  c ∈ ["h"; "t"; "p"; "s"; ":"; "/"]%char -> ci_eqb c "%" = false.
Proof.
  intros Hc. repeat (apply elem_of_cons in Hc as [->|Hc]);
    try (by apply elem_of_nil in Hc); reflexivity.
Qed.

Lemma first_char_encodeURI c x s :
  c ∈ ["h"; "t"; "p"; "s"; ":"; "/"]%char ->
  forall p,
  (forall s', match_here p (encodeURI s') = match_here p s') ->
  match encodeURI (String x s) with
  | String y r => ci_eqb c y && match_here p r
  | EmptyString => false
  end = ci_eqb c x && match_here p s.
Proof.
  intros Hc p IH. cbn [encodeURI].
  destruct (mem_char x uri_unescaped) eqn:E.
  - by rewrite IH.
  - rewrite (url_letter_not_percent c Hc).
    destruct (ci_eqb c x) eqn:Ex; [|done].
    by rewrite (url_letter_unescaped c x Hc Ex) in E.
Qed.

(** A pattern made of the letters of [http://] matches the encoded string
    at its start exactly when it matches the string. *)
Lemma match_here_encodeURI p s :
  Forall (fun a => letter a ∈ ["h"; "t"; "p"; "s"; ":"; "/"]%char) p ->
  match_here p (encodeURI s) = match_here p s.
Proof.
  intros Hp. revert s. induction Hp as [|a p Ha _ IH]; intros s; [done|].
  destruct a as [c|c]; cbn [match_here].
  - destruct s as [|x s]; [done|]. by apply first_char_encodeURI.
  - rewrite IH. f_equal. destruct s as [|x s]; [done|].
    by apply first_char_encodeURI.
Qed.

Lemma wrapper_link w t c :
  el "a" [("class", "btn"); ("href", encodeURI t); ("target", "_blank");
          ("rel", "noopener noreferrer")] [Text "Open original"]
  ∈ elements (wrapper w t c).
Proof.
  unfold wrapper.
  repeat first
    [ rewrite elements_text
    | rewrite elements_cons
    | rewrite subtree_el
    | rewrite elements_nil
    | rewrite elem_of_app
    | rewrite elem_of_cons ].
  left. right. right. left. right. left. right. right. left. right. left.
  by left.
Qed.

End UriFacts.

(** X9: every page has the "Open original" link, whose [href] is the
    encoded target.  Whatever the target is, that [href] is made of the
    characters [encodeURI] leaves alone and of percent escapes only, among
    which there is no space (32), double quote (34) or angle bracket (60,
    62); for a target that passed the
    pattern it still starts with [http://] or [https://]; and a target
    made of unescaped characters only is linked as it is. *)
Theorem open_original_href (w : World) (t : string) (content : html) :
  (exists n, n ∈ Dom.elements (Server.wrapper w t content) /\
     Dom.tag_of n = "a" /\
     Dom.attrs_of n !! "class" = Some "btn" /\
     Dom.attrs_of n !! "href" = Some (Server.encodeURI t) /\
     Dom.attrs_of n !! "target" = Some "_blank" /\
     Dom.attrs_of n !! "rel" = Some "noopener noreferrer") /\
  Spec.all_chars Spec.uri_output (Server.encodeURI t) = true /\
  Forall (fun c => Spec.uri_output c = false)
    (map ascii_of_nat [32; 34; 60; 62]) /\
  (Regex.test Server.url_pattern t = true ->
   Regex.test Server.url_pattern (Server.encodeURI t) = true) /\
  (Spec.all_chars (fun c => Server.mem_char c Server.uri_unescaped) t = true ->
   Server.encodeURI t = t).
Proof.
  split; [|split; [|split; [|split]]].
  - eexists. split; [apply wrapper_link|]. repeat split; reflexivity.
  - apply encodeURI_chars.
  - repeat constructor.
  - unfold Regex.test, Server.url_pattern. cbn [Regex.anchored Regex.atoms].
    rewrite match_here_encodeURI; [done|].
    apply (bool_decide_unpack _). by vm_compute.
  - apply encodeURI_unescaped.
Qed.

Lemma open_original_href_witness :
  Regex.test Server.url_pattern
    (Server.encodeURI "HTTPS://example.com/a b?q=<1>") = true /\
  Server.encodeURI "http://example.com/article" = "http://example.com/article".
Proof.
  destruct (open_original_href
              (Examples.serve Examples.article_page)
              "HTTPS://example.com/a b?q=<1>" []) as [_ [_ [_ [H _]]]].
  destruct (open_original_href
              (Examples.serve Examples.article_page)
              "http://example.com/article" []) as [_ [_ [_ [_ H']]]].
  split; [apply H; reflexivity|apply H'; reflexivity].
Defined.

(** ** A document that loses its body *)
Section NoBodyFacts.
Import Dom Spec Server.

Lemma not_in_own_child v k t a cs c :
  NoDup (map uid_of (subtree (Element v k t a cs))) ->
  c ∈ elements cs -> Element v k t a cs ∉ subtree c.
Proof.
  simpl. intros ND Hc Hin. apply NoDup_cons in ND. destruct ND as [Hv _].
  apply Hv. apply (list_elem_of_fmap_2 uid_of _ (Element v k t a cs)).
  by apply (subtree_elements cs c).
Qed.

Lemma body_update_each_None g nodes f :
  body f = None -> body (update_each g nodes f) = None.
Proof.
  unfold update_each. revert f.
  induction nodes as [|x nodes IH]; intros f Hf; simpl; [done|].
  apply IH. unfold updateAttributes.
  rewrite (map_ext _ _ (update_retag (uid_of x) g)).
  by rewrite body_retag, Hf.
Qed.

Lemma body_absolutize_None w base f :
  body f = None -> body (absolutize w base f) = None.
Proof.
  intros Hf. unfold absolutize. by do 2 apply body_update_each_None.
Qed.

(** When the sweeps look for the [body] element, or for the [html] element
    above it, the cleaned document has no body. *)
Lemma cleaned_no_body u uh ub ah ahd ab hs bs :
  let raw := parsed_document u uh ub ah ahd ab hs bs in
  NoDup (uids raw) ->
  unwanted (Element ub HTML "body" ab bs) = true \/
  unwanted (Element u HTML "html" ah
              [Element uh HTML "head" ahd hs; Element ub HTML "body" ab bs])
    = true ->
  body (cleaned raw) = None.
Proof.
  intros raw ND Hun.
  set (headEl := Element uh HTML "head" ahd hs).
  set (bodyEl := Element ub HTML "body" ab bs).
  set (root := Element u HTML "html" ah [headEl; bodyEl]).
  assert (forall a, a ∈ elements raw ->
            a = root \/ a ∈ subtree headEl \/ a ∈ subtree bodyEl) as Hel.
  { intros a Ha.
    change (a ∈ (root :: subtree headEl ++ subtree bodyEl ++ []) ++ []) in Ha.
    rewrite !app_nil_r in Ha.
    apply elem_of_cons in Ha. destruct Ha as [Ha|Ha]; [by left|right].
    by apply elem_of_app in Ha. }
  assert (NoDup (map uid_of (subtree root))) as NDr.
  { change (NoDup (map uid_of (subtree root ++ []))) in ND.
    by rewrite app_nil_r in ND. }
  assert (NoDup (map uid_of (subtree headEl) ++ map uid_of (subtree bodyEl)))
    as NDc.
  { pose proof NDr as NDr'.
    change (NoDup (u :: map uid_of
                          (subtree headEl ++ subtree bodyEl ++ []))) in NDr'.
    apply NoDup_cons in NDr'. destruct NDr' as [_ NDr'].
    rewrite app_nil_r, map_app in NDr'. exact NDr'. }
  apply NoDup_app in NDc. destruct NDc as [_ [Hdis NDb]].
  assert (root ∈ elements raw) as Hroot.
  { change (root ∈ (root :: subtree headEl ++ subtree bodyEl ++ []) ++ []).
    apply elem_of_cons. by left. }
  assert (bodyEl ∈ elements raw) as Hbody.
  { apply (subtree_elements raw root); [done|].
    change (bodyEl ∈ root :: subtree headEl ++ subtree bodyEl ++ []).
    apply elem_of_cons. right. apply elem_of_app. right.
    apply elem_of_app. left. by apply subtree_self. }
  destruct (cleaned_taken_out raw ND) as [q [-> [_ HB]]].
  destruct (q u) eqn:Eu.
  { unfold raw, parsed_document, prune_forest. simpl. by rewrite Eu. }
  destruct (q ub) eqn:Eb.
  { unfold raw, parsed_document, prune_forest. simpl. rewrite Eu, Eb.
    by destruct (q uh). }
  exfalso. destruct Hun as [Hun|Hun].
  - destruct (HB bodyEl Hbody Hun) as [a [Ha [Hq Hsub]]].
    destruct (Hel a Ha) as [->|[Hh|Hb]].
    + simpl in Hq. congruence.
    + apply (Hdis ub).
      * apply (list_elem_of_fmap_2 uid_of _ bodyEl).
        by apply (subtree_trans headEl a).
      * apply (list_elem_of_fmap_2 uid_of _ bodyEl). by apply subtree_self.
    + change (a ∈ bodyEl :: elements bs) in Hb.
      apply elem_of_cons in Hb. destruct Hb as [->|Hb].
      * simpl in Hq. congruence.
      * by apply (not_in_own_child ub HTML "body" ab bs a NDb).
  - destruct (HB root Hroot Hun) as [a [Ha [Hq Hsub]]].
    destruct (Hel a Ha) as [->|Hc].
    + simpl in Hq. congruence.
    + apply (not_in_own_child u HTML "html" ah [headEl; bodyEl] a NDr);
        [|done].
      change (a ∈ subtree headEl ++ subtree bodyEl ++ []).
      rewrite app_nil_r. by apply elem_of_app.
Qed.

End NoBodyFacts.

(** X10: when the [body] element of the fetched document, or the [html]
    element above it, matches what the sweeps look for (an [id] or [class]
    that contains "ad", say), the sweeps take the body away with it.  If
    the extraction then returns nothing and leaves the document without a
    body, the page sent is the wrapper around the fetched markup itself,
    sanitised: nothing the sweeps removed is missing from it. *)
Theorem ad_body_serves_fetched_markup (w : World) (t : string) (status : nat)
    (u uh ub : nat) (ah ahd ab : attributes) (hs bs : list node)
    (doc' : document) (r : parse_result) :
  let raw := Spec.parsed_document u uh ub ah ahd ab hs bs in
  NoDup (Dom.uids raw) ->
  Spec.unwanted (Element ub HTML "body" ab bs) = true \/
  Spec.unwanted
    (Element u HTML "html" ah
       [Element uh HTML "head" ahd hs; Element ub HTML "body" ab bs]) = true ->
  Dom.body (Server.cleaned raw) = None /\
  (Regex.test Server.url_pattern t = true ->
   fetch w (Outbound t Server.user_agent 15000%N) = FetchResponse status raw ->
   200 <= status <= 299 ->
   Readability_parse w (Document t (Server.cleaned raw)) = (doc', r) ->
   Server.article_html w r = None ->
   Dom.body (docNodes doc') = None ->
   Server.handle w {| target := Some t |} =
   ([Outbound t Server.user_agent 15000%N],
    Page "text/html; charset=utf-8" (Server.wrapper w t (Server.clean w raw)))).
Proof.
  intros raw ND Hun. split; [by apply cleaned_no_body|].
  intros Ht Hf Hs Hr Ha Hb. rewrite handle_valid by done.
  rewrite Hf, (proj2 (ok_range status) Hs).
  unfold Server.select_content. rewrite Hr, Ha.
  unfold Server.body_or_raw. by rewrite body_absolutize_None.
Qed.

Lemma loaded_page_NoDup : NoDup (Dom.uids Examples.loaded_page).
Proof. apply (bool_decide_unpack _). by vm_compute. Qed.

Lemma ad_body_serves_fetched_markup_witness :
  Server.handle (Examples.serve Examples.loaded_page)
    (Examples.post Examples.site) =
  ([Outbound Examples.site Server.user_agent 15000%N],
   Page "text/html; charset=utf-8"
     (Server.wrapper (Examples.serve Examples.loaded_page) Examples.site
        (Server.clean (Examples.serve Examples.loaded_page)
           Examples.loaded_page))).
Proof.
  refine (proj2
    (ad_body_serves_fetched_markup (Examples.serve Examples.loaded_page)
       Examples.site 200 1 2 3 ∅ ∅ {[ "class" := "loaded" ]} []
       [ Element 4 HTML "script" ∅ [Text "bad()"];
         Element 5 HTML "p" {[ "class" := "ad-banner" ]} [Text "X"];
         Element 6 HTML "p" ∅
           [Text "Real text long enough to be an article body"] ]
       (Document Examples.site (Server.cleaned Examples.loaded_page))
       ParseNull _ _) _ _ _ _ _ _).
  - exact loaded_page_NoDup.
  - left. reflexivity.
  - reflexivity.
  - reflexivity.
  - lia.
  - vm_compute. reflexivity.
  - reflexivity.
  - vm_compute. reflexivity.
Defined.

(** X11: the attributes the fallback path gives to anchors survive the
    sanitizer.  When the extraction yields nothing and the document (with
    distinct node identities) has a body, every anchor in the content of
    the page has [target="_blank"] and [rel="noopener noreferrer"],
    provided the sanitizer reads the content of the body as the tree it is
    (it finds no anchor that is not an element of the body) and writes out
    these two values as they are. *)
Theorem fallback_anchors_in_page (w : World) (t : string) (raw : html)
    (doc' : document) (r : parse_result) (b : node) :
  Readability_parse w (Document t (Server.cleaned raw)) = (doc', r) ->
  Server.article_html w r = None ->
  NoDup (Dom.uids (docNodes doc')) ->
  Dom.body (docNodes doc') = Some b ->
  Sanitize.parse (sanitize_html w)
    (map (Spec.retag (fun _ => Spec.absolutized w t)) (Dom.children_of b)) =
    map (Spec.retag (fun _ => Spec.absolutized w t)) (Dom.children_of b) ->
  Sanitize.filter_value (sanitize_html w) "a" "target" "_blank" =
    Some "_blank" ->
  Sanitize.filter_value (sanitize_html w) "a" "rel" "noopener noreferrer" =
    Some "noopener noreferrer" ->
  forall n,
    n ∈ Dom.elements
          (Server.clean w
             (Server.content_html
                (Server.select_content w t raw (Server.cleaned raw)))) ->
    Dom.tag_of n = "a" ->
    Dom.attrs_of n !! "target" = Some "_blank" /\
    Dom.attrs_of n !! "rel" = Some "noopener noreferrer".
Proof.
  intros Hr Ha ND Hb Hp Hvt Hvr n Hn Htag.
  rewrite (select_content_fallback w t raw doc' r b Hr Ha ND Hb) in Hn.
  cbn [Server.content_html] in Hn.
  apply sanitizeHtml_elements in Hn.
  destruct Hn as [_ [m [Hm [_ [Et Eattrs]]]]].
  rewrite Hp in Hm.
  rewrite elements_retag in Hm. apply list_elem_of_fmap in Hm.
  destruct Hm as [m0 [-> Hm0]].
  rewrite tag_retag in Et, Eattrs.
  rewrite attrs_retag in Eattrs
    by by apply (elements_element (Dom.children_of b)).
  rewrite <- Et, Htag in Eattrs. unfold Spec.absolutized in Eattrs.
  rewrite bool_decide_eq_true_2 in Eattrs by done.
  destruct (rewrite_anchor_spec w t (Dom.attrs_of m0)) as [_ [H1 H2]].
  rewrite Eattrs.
  split; apply sanitize_attributes_lookup; (split; [by vm_compute|]); eauto.
Qed.

Lemma fallback_anchors_in_page_witness :
  Dom.attrs_of
    (Element 4 HTML "a"
       {[ "href" := "http://example.com/next"; "rel" := "noopener noreferrer";
          "target" := "_blank" ]} [Text "next"]) !! "target" = Some "_blank" /\
  Dom.attrs_of
    (Element 4 HTML "a"
       {[ "href" := "http://example.com/next"; "rel" := "noopener noreferrer";
          "target" := "_blank" ]} [Text "next"]) !! "rel" =
    Some "noopener noreferrer".
Proof.
  refine (fallback_anchors_in_page (Examples.quiet Examples.links_page)
    Examples.site Examples.links_page
    (Document Examples.site (Server.cleaned Examples.links_page)) ParseNull
    (Element 3 HTML "body" ∅
       [Examples.link_next; Examples.link_broken; Examples.link_here;
        Examples.picture]) _ _ _ _ _ _ _ _ _ _).
  - reflexivity.
  - reflexivity.
  - apply (bool_decide_unpack _). by vm_compute.
  - vm_compute. reflexivity.
  - reflexivity.
  - reflexivity.
  - reflexivity.
  - apply list_elem_of_In. vm_compute. tauto.
  - reflexivity.
Defined.
